(** * merge_openapi: a shallow embedding of [scripts/merge_openapi.py]

    The script loads a list of YAML documents, folds them into one
    accumulator document and dumps the accumulator.  This file embeds the
    four functions of the script ([load_yaml], [deep_merge_dict],
    [merge_specs], [main]) and proves the properties the specification
    states about them, followed by further properties of the code.

    Modelling conventions.
    - A parsed document is a finite tree ([value]): null, booleans,
      integers, strings, sequences and mappings.  Mappings are association
      lists in insertion order, as Python dictionaries iterate; their keys
      are strings.  Outside the trees: floating-point scalars, mapping keys
      that are not strings, and YAML aliases, by which one object is
      stored in two places or inside itself.  The theorems on trees are
      about documents without aliases.
    - A string is the UTF-8 encoding of the Python string.
    - On trees, Python's in-place update of a dictionary reachable from the
      accumulator is the functional update of the accumulator at that key,
      and [deepcopy] rebuilds the tree it is given.  Module [Heap] models
      [deep_merge_dict] and [deepcopy] on a store of objects, where an
      object can be shared, and [HeapFacts.merge_in_place] proves that, on
      objects that form trees, the store-level merge does what the
      tree-level merge computes.  What it does with shared and recursive
      objects, where the claims C1, C6 and C7 fail, is shown on the store
      ([aliased_key_changed], [recursive_input_twice],
      [aliased_input_last_loses]).
    - Exceptions are values of [exn], threaded by the [result] monad.
    - The process environment, the readable files and the writable paths
      are the fields of a [world]; what a run does to the outside is the
      [outcome] it returns.  Once the output is open, the dump of a tree
      is taken to complete (an integer too long for [str] to convert is
      outside the model). *)

From stdpp Require Import base tactics option list gmap strings.
From Stdlib Require Import ZArith DecimalString.

Local Open Scope string_scope.
Local Open Scope list_scope.
Local Open Scope Z_scope.

(** ** Documents *)

Module Doc.

Unset Elimination Schemes.
Inductive value : Type :=
| VNull
| VBool (b : bool)
| VInt (z : Z)
| VStr (s : string)
| VList (l : list value)
| VDict (d : list (string * value)).
Set Elimination Schemes.

Abbreviation dict := (list (string * value)).

(** Structural induction that reaches below sequences and mappings. *)
Section Induction.
Variable P : value → Prop.
Hypothesis Hnull : P VNull.
Hypothesis Hbool : ∀ b, P (VBool b).
Hypothesis Hint : ∀ z, P (VInt z).
Hypothesis Hstr : ∀ s, P (VStr s).
Hypothesis Hlist : ∀ l, Forall P l → P (VList l).
Hypothesis Hdict : ∀ d, Forall (λ kv, P kv.2) d → P (VDict d).

Fixpoint value_tree_ind (v : value) : P v :=
  match v with
  | VNull => Hnull
  | VBool b => Hbool b
  | VInt z => Hint z
  | VStr s => Hstr s
  | VList l =>
      Hlist l ((fix all (l : list value) : Forall P l :=
                  match l with
                  | [] => @List.Forall_nil _ P
                  | x :: r => @List.Forall_cons _ P x r (value_tree_ind x) (all r)
                  end) l)
  | VDict d =>
      Hdict d ((fix all (d : dict) : Forall (λ kv, P kv.2) d :=
                  match d with
                  | [] => @List.Forall_nil _ _
                  | kv :: r => @List.Forall_cons _ (λ kv, P kv.2) kv r (value_tree_ind kv.2) (all r)
                  end) d)
  end.
End Induction.

Definition is_dict (v : value) : bool :=
  match v with VDict _ => true | _ => false end.

(** Python truth value: [bool(v)]. *)
Definition truthy (v : value) : bool :=
  match v with
  | VNull => false
  | VBool b => b
  | VInt z => negb (z =? 0)
  | VStr s => negb (String.eqb s "")
  | VList l => match l with [] => false | _ => true end
  | VDict d => match d with [] => false | _ => true end
  end.

(** [a or b]. *)
Definition py_or (a b : value) : value := if truthy a then a else b.

(** [copy.deepcopy]: a fresh tree with the same shape and leaves. *)
Fixpoint deepcopy (v : value) : value :=
  match v with
  | VList l => VList (map deepcopy l)
  | VDict d => VDict (map (λ kv, (kv.1, deepcopy kv.2)) d)
  | _ => v
  end.

(** [k in d] and [d[k]] for a dictionary. *)
Fixpoint dict_get (k : string) (d : dict) : option value :=
  match d with
  | [] => None
  | (k', v) :: r => if String.eqb k k' then Some v else dict_get k r
  end.

(** [d[k] = v]: an existing key keeps its position, a new key goes last. *)
Fixpoint dict_set (k : string) (v : value) (d : dict) : dict :=
  match d with
  | [] => [(k, v)]
  | (k', v') :: r =>
      if String.eqb k k' then (k', v) :: r else (k', v') :: dict_set k v r
  end.

Definition keys (d : dict) : list string := map fst d.

(** Descent along a sequence of keys, through mappings only. *)
Fixpoint at_path (p : list string) (v : value) : option value :=
  match p with
  | [] => Some v
  | k :: p' =>
      match v with
      | VDict d => match dict_get k d with Some x => at_path p' x | None => None end
      | _ => None
      end
  end.

(** Python dictionaries hold a key once; [wf] says so at every level. *)
Fixpoint wf (v : value) : Prop :=
  match v with
  | VList l => (fix all (l : list value) : Prop :=
                  match l with [] => True | x :: r => wf x ∧ all r end) l
  | VDict d => NoDup (keys d) ∧
               (fix all (d : dict) : Prop :=
                  match d with [] => True | kv :: r => wf kv.2 ∧ all r end) d
  | _ => True
  end.

End Doc.
Export Doc.

(** ** Exceptions *)

Inductive exn : Type :=
| LoadError (path : string)   (* raised inside [load_yaml] for this file *)
| AttributeError
| TypeError
| KeyError (key : string)
| OSError (path : string).

Inductive result (A : Type) : Type :=
| OK (a : A)
| Raise (e : exn).
Arguments OK {A} a.
Arguments Raise {A} e.

Global Instance result_ret : MRet result := λ A a, OK a.
Global Instance result_bind : MBind result := λ A B f r,
  match r with OK a => f a | Raise e => Raise e end.

(** ** [deep_merge_dict] *)

(** One function for [deep_merge_dict(dst, src)]; the inner [go] is the
    [for k, v in (src or {}).items()] loop, carrying [dst] as it is
    updated. A source that is truthy and not a mapping has no [items]. *)
Fixpoint deep_merge_dict (dst src : value) {struct src} : result value :=
  match src with
  | VDict items =>
      (fix go (items : dict) (dst : value) {struct items} : result value :=
         match items with
         | [] => OK dst
         | (k, v) :: rest =>
             match dst with
             | VDict d =>
                 dst' ← match dict_get k d with
                         | Some (VDict dk) =>
                             if is_dict v
                             then r ← deep_merge_dict (VDict dk) v;
                                  OK (VDict (dict_set k r d))
                             else OK (VDict (dict_set k (deepcopy v) d))
                         | _ => OK (VDict (dict_set k (deepcopy v) d))
                         end;
                 go rest dst'
             | _ => Raise TypeError
             end
         end) items dst
  | _ => if truthy src then Raise AttributeError else OK dst
  end.

(** The loop body and the loop of [deep_merge_dict], named. *)
Definition merge_entry (dst : value) (k : string) (v : value) : result value :=
  match dst with
  | VDict d =>
      match dict_get k d with
      | Some (VDict dk) =>
          if is_dict v
          then r ← deep_merge_dict (VDict dk) v; OK (VDict (dict_set k r d))
          else OK (VDict (dict_set k (deepcopy v) d))
      | _ => OK (VDict (dict_set k (deepcopy v) d))
      end
  | _ => Raise TypeError
  end.

Fixpoint merge_items (dst : value) (items : dict) : result value :=
  match items with
  | [] => OK dst
  | (k, v) :: rest => dst' ← merge_entry dst k v; merge_items dst' rest
  end.

(** ** Python built-ins the script calls *)

(** [str.strip()].  A string of the model is the UTF-8 encoding of the
    Python string ([os.environ] decodes the environment as UTF-8), and
    [strip] works on characters.  [utf8_chars] cuts a string into its
    characters: a lead byte with the continuation bytes it announces, or a
    byte on its own. *)
Definition byte_in (lo hi : nat) (c : Ascii.ascii) : bool :=
  ((lo <=? Ascii.nat_of_ascii c) && (Ascii.nat_of_ascii c <=? hi))%nat.

Definition is_cont : Ascii.ascii → bool := byte_in 128 191.

Fixpoint utf8_chars (s : string) : list string :=
  match s with
  | EmptyString => []
  | String c1 r1 =>
      match r1 with
      | String c2 r2 =>
          if byte_in 194 223 c1 && is_cont c2
          then String c1 (String c2 "") :: utf8_chars r2
          else
            match r2 with
            | String c3 r3 =>
                if byte_in 224 239 c1 && is_cont c2 && is_cont c3
                then String c1 (String c2 (String c3 "")) :: utf8_chars r3
                else
                  match r3 with
                  | String c4 r4 =>
                      if byte_in 240 244 c1 && is_cont c2 && is_cont c3
                         && is_cont c4
                      then String c1 (String c2 (String c3 (String c4 "")))
                           :: utf8_chars r4
                      else String c1 "" :: utf8_chars r1
                  | EmptyString => String c1 "" :: utf8_chars r1
                  end
            | EmptyString => String c1 "" :: utf8_chars r1
            end
      | EmptyString => [String c1 ""]
      end
  end.

(** The characters [str.isspace] accepts, each by its UTF-8 bytes:
    U+0009 to U+000D, U+001C to U+0020, U+0085, U+00A0, U+1680, U+2000 to
    U+200A, U+2028, U+2029, U+202F, U+205F and U+3000. *)
Definition of_bytes (l : list nat) : string :=
  foldr (λ n s, String (Ascii.ascii_of_nat n) s) "" l.

Definition white_space : list string :=
  of_bytes <$>
    [ [9]; [10]; [11]; [12]; [13]; [28]; [29]; [30]; [31]; [32];
      [194; 133]; [194; 160]; [225; 154; 128];
      [226; 128; 128]; [226; 128; 129]; [226; 128; 130]; [226; 128; 131];
      [226; 128; 132]; [226; 128; 133]; [226; 128; 134]; [226; 128; 135];
      [226; 128; 136]; [226; 128; 137]; [226; 128; 138];
      [226; 128; 168]; [226; 128; 169]; [226; 128; 175];
      [226; 129; 159]; [227; 128; 128] ]%nat.

Definition is_space (c : string) : bool := bool_decide (c ∈ white_space).

(** White space is taken off the left end, then off the right end. *)
Fixpoint lstrip_chars (l : list string) : list string :=
  match l with
  | c :: r => if is_space c then lstrip_chars r else l
  | [] => []
  end.

Definition rstrip_chars (l : list string) : list string :=
  reverse (lstrip_chars (reverse l)).

Definition join (l : list string) : string := foldr String.append "" l.

Definition strip (s : string) : string :=
  join (rstrip_chars (lstrip_chars (utf8_chars s))).

(** [obj.get(k, default)]: only mappings have [get]. *)
Definition py_get (obj : value) (k : string) (dflt : value) : result value :=
  match obj with
  | VDict d => OK (default dflt (dict_get k d))
  | _ => Raise AttributeError
  end.

(** [d[k]] on a dictionary. *)
Definition getitem (d : dict) (k : string) : result value :=
  match dict_get k d with
  | Some v => OK v
  | None => Raise (KeyError k)
  end.

(** [c.setdefault(k, default)]: the value under [k], and [c] afterwards. *)
Definition setdefault (c : value) (k : string) (dflt : value)
  : result (value * dict) :=
  match c with
  | VDict d =>
      match dict_get k d with
      | Some v => OK (v, d)
      | None => OK (dflt, dict_set k dflt d)
      end
  | _ => Raise AttributeError
  end.

(** [l.append(x)]. *)
Definition append (l : value) (x : value) : result value :=
  match l with
  | VList xs => OK (VList (xs ++ [x]))
  | _ => Raise AttributeError
  end.

Fixpoint chars (s : string) : list value :=
  match s with
  | EmptyString => []
  | String c r => VStr (String c EmptyString) :: chars r
  end.

(** [for t in x]: what the loop variable ranges over. *)
Definition py_iter (x : value) : result (list value) :=
  match x with
  | VList l => OK l
  | VDict d => OK (map VStr (keys d))
  | VStr s => OK (chars s)
  | _ => Raise TypeError
  end.

(** Members of a Python set are compared through [hash] and [==]: a
    boolean is the integer it equals, sequences and mappings cannot be
    hashed. *)
Inductive hkey : Type :=
| HNone
| HNum (z : Z)
| HStr (s : string).

Global Instance hkey_eq_dec : EqDecision hkey.
Proof. solve_decision. Defined.

Global Instance hkey_countable : Countable hkey.
Proof.
  refine (inj_countable'
    (λ h, match h with
          | HNone => inl ()
          | HNum z => inr (inl z)
          | HStr s => inr (inr s)
          end)
    (λ x, match x with
          | inl _ => HNone
          | inr (inl z) => HNum z
          | inr (inr s) => HStr s
          end) _).
  by intros [].
Defined.

Definition py_hash (v : value) : result hkey :=
  match v with
  | VNull => OK HNone
  | VBool b => OK (HNum (if b then 1 else 0))
  | VInt z => OK (HNum z)
  | VStr s => OK (HStr s)
  | VList _ | VDict _ => Raise TypeError
  end.

Fixpoint foldM {A B} (f : A → B → result A) (a : A) (l : list B) : result A :=
  match l with
  | [] => OK a
  | x :: r => a' ← f a x; foldM f a' r
  end.

(** ** The outside of the process *)

Record world : Type := World {
  environ : string → option string;   (* os.environ *)
  files : string → option value;      (* what yaml.safe_load gives for a
                                         path; None: open or parse raises *)
  writable : string → bool            (* open(path, 'w') succeeds *)
}.

(** [load_yaml(path)] *)
Definition load_yaml (w : world) (path : string) : result value :=
  match files w path with
  | Some v => OK v
  | None => Raise (LoadError path)
  end.

(** ** [merge_specs] *)

Definition initial_out : dict :=
  [ ("openapi", VStr "3.0.3");
    ("info", VDict [("title", VStr "FocusNest - All Services");
                    ("version", VStr "1.0.0")]);
    ("paths", VDict []);
    ("components", VDict [("schemas", VDict []);
                          ("securitySchemes", VDict []);
                          ("parameters", VDict []);
                          ("responses", VDict [])]);
    ("tags", VList []) ].

Definition component_keys : list string :=
  ["schemas"; "securitySchemes"; "parameters"; "responses"].

(** [deep_merge_dict(out['paths'], spec.get('paths', {}))] *)
Definition merge_paths (out : dict) (spec : value) : result dict :=
  dst ← getitem out "paths";
  src ← py_get spec "paths" (VDict []);
  dst' ← deep_merge_dict dst src;
  OK (dict_set "paths" dst' out).

(** One round of [for key in [...]]. *)
Definition merge_component (comps : value) (out : dict) (key : string)
  : result dict :=
  c ← getitem out "components";
  '(sub, c') ← setdefault c key (VDict []);
  src ← py_get comps key (VDict []);
  sub' ← deep_merge_dict sub (py_or src (VDict []));
  OK (dict_set "components" (VDict (dict_set key sub' c')) out).

Definition merge_components (out : dict) (spec : value) : result dict :=
  raw ← py_get spec "components" (VDict []);
  foldM (merge_component (py_or raw (VDict []))) out component_keys.

(** One round of [for t in spec.get('tags', []) or []]. *)
Definition merge_tag (st : dict * gset hkey) (t : value)
  : result (dict * gset hkey) :=
  name ← py_get t "name" VNull;
  if truthy name then
    h ← py_hash name;
    if decide (h ∈ st.2) then OK st
    else
      tags ← getitem st.1 "tags";
      tags' ← append tags t;
      OK (dict_set "tags" tags' st.1, {[h]} ∪ st.2)
  else OK st.

Definition merge_tags (st : dict * gset hkey) (spec : value)
  : result (dict * gset hkey) :=
  raw ← py_get spec "tags" (VList []);
  ts ← py_iter (py_or raw (VList []));
  foldM merge_tag st ts.

(** The body of [for p in paths], after the document is loaded. *)
Definition merge_doc (st : dict * gset hkey) (spec : value)
  : result (dict * gset hkey) :=
  out1 ← merge_paths st.1 spec;
  out2 ← merge_components out1 spec;
  merge_tags (out2, st.2) spec.

Definition merge_input (w : world) (st : dict * gset hkey) (p : string)
  : result (dict * gset hkey) :=
  spec ← load_yaml w p;
  merge_doc st spec.

Definition default_server (w : world) : string :=
  strip (default "" (environ w "MERGE_DEFAULT_SERVER")).

Definition servers_entry (url : string) : value :=
  VList [VDict [("url", VStr url); ("description", VStr "Default")]].

(** The accumulator before the first input. *)
Definition seed (w : world) : dict :=
  if truthy (VStr (default_server w))
  then dict_set "servers" (servers_entry (default_server w)) initial_out
  else initial_out.

Definition merge_specs (w : world) (paths : list string) : result dict :=
  st ← foldM (merge_input w) (seed w, ∅) paths;
  OK st.1.

(** ** [main] *)

(** [yaml.safe_dump(data, f, sort_keys=...)]: the file holds the tree it was
    given, mappings in iteration order, or ordered by key when [sort_keys]
    is set. *)
Fixpoint insert_by_key (kv : string * value) (d : dict) : dict :=
  match d with
  | [] => [kv]
  | kv' :: r =>
      if String.leb kv.1 kv'.1 then kv :: d else kv' :: insert_by_key kv r
  end.

Fixpoint sort_keys_of (v : value) : value :=
  match v with
  | VList l => VList (map sort_keys_of l)
  | VDict d =>
      VDict (foldr insert_by_key [] (map (λ kv, (kv.1, sort_keys_of kv.2)) d))
  | _ => v
  end.

Definition safe_dump (data : value) (sort_keys : bool) : value :=
  if sort_keys then sort_keys_of data else data.

Record outcome : Type := Outcome {
  exit_status : Z;
  stdout : list string;
  uncaught : option exn;              (* the traceback on standard error *)
  written : list (string * value)     (* files created or overwritten *)
}.

Definition usage : string :=
  "Usage: merge_openapi.py <output> <input1> [input2 ...]".

Definition decimal (n : nat) : string :=
  NilEmpty.string_of_uint (Nat.to_uint n).

Definition main (w : world) (argv : list string) : outcome :=
  if (length argv <? 3)%nat then
    Outcome 1 [usage] None []
  else
    let output := nth 1 argv "" in
    let inputs := drop 2 argv in
    match merge_specs w inputs with
    | Raise e => Outcome 1 [] (Some e) []
    | OK merged =>
        if writable w output then
          Outcome 0
            ["Wrote " +:+ output +:+ " from " +:+ decimal (length inputs) +:+ " inputs"]
            None
            [(output, safe_dump (VDict merged) false)]
        else Outcome 1 [] (Some (OSError output)) []
    end.

(** ** Specification vocabulary *)

(** What the merge rule asks of the value [new] left under a key whose old
    value was [old] and whose source value is [v]. *)
Definition entry_rule (old : option value) (v new : value) : Prop :=
  match old with
  | Some (VDict dk) =>
      if is_dict v then deep_merge_dict (VDict dk) v = OK new
      else new = deepcopy v
  | _ => new = deepcopy v
  end.

Global Arguments merge_entry : simpl never.

(** The accumulator, seen through its five containers and the entries
    that follow [tags]. *)
Definition mk_out (pths c1 c2 c3 c4 tgs : value) (srv : dict) : dict :=
  [ ("openapi", VStr "3.0.3");
    ("info", VDict [("title", VStr "FocusNest - All Services");
                    ("version", VStr "1.0.0")]);
    ("paths", pths);
    ("components", VDict [("schemas", c1);
                          ("securitySchemes", c2);
                          ("parameters", c3);
                          ("responses", c4)]);
    ("tags", tgs) ] ++ srv.

(** The shape: mappings for the paths and the four component containers, a
    sequence for the tags, and [srv] after them. *)
Inductive shaped (srv : dict) : dict → Prop :=
| Shaped (P c1 c2 c3 c4 : dict) (T : list value) :
    shaped srv (mk_out (VDict P) (VDict c1) (VDict c2) (VDict c3) (VDict c4)
                       (VList T) srv).

(** What [seed] puts after [tags]. *)
Definition servers_of (w : world) : dict :=
  if truthy (VStr (default_server w))
  then [("servers", servers_entry (default_server w))]
  else [].

(** The set member a tag entry is remembered by: the hash key of its name,
    for an entry that is a mapping with a truthy, hashable name. *)
Definition tag_key (t : value) : option hkey :=
  match py_get t "name" VNull with
  | OK name =>
      if truthy name
      then match py_hash name with OK h => Some h | Raise _ => None end
      else None
  | Raise _ => None
  end.

Definition named (h : hkey) (t : value) : Prop := tag_key t = Some h.

Global Instance named_dec h t : Decision (named h t).
Proof. unfold named. apply _. Defined.

(** First occurrence wins: an entry with a name stays, and every later
    entry with that name goes. *)
Definition first_occurrences (ts : list value) : list value :=
  foldr (λ t acc, match tag_key t with
                  | Some h => t :: filter (λ u, ¬ named h u) acc
                  | None => acc
                  end) [] ts.

Definition unseen (seen : gset hkey) (t : value) : Prop :=
  match tag_key t with Some h => h ∉ seen | None => True end.

Global Instance unseen_dec seen t : Decision (unseen seen t).
Proof. unfold unseen. destruct (tag_key t); apply _. Defined.

Definition names_of (ts : list value) : gset hkey :=
  list_to_set (omap tag_key ts).

(** The tag entries a document offers, and those of a run, in order. *)
Definition tag_entries (spec : value) : list value :=
  match py_get spec "tags" (VList []) ≫= λ raw, py_iter (py_or raw (VList [])) with
  | OK ts => ts
  | Raise _ => []
  end.

Definition all_tags (w : world) (paths : list string) : list value :=
  concat (map (λ p, from_option tag_entries [] (files w p)) paths).

(** The sources of the deep merges of a document. *)
Definition paths_src (spec : value) : value :=
  match spec with
  | VDict d => default (VDict []) (dict_get "paths" d)
  | _ => VDict []
  end.

Definition comp_src (spec : value) (key : string) : value :=
  match spec with
  | VDict d =>
      match py_or (default (VDict []) (dict_get "components" d)) (VDict []) with
      | VDict c => py_or (default (VDict []) (dict_get key c)) (VDict [])
      | _ => VDict []
      end
  | _ => VDict []
  end.

(** A document with its [servers] entry taken away. *)
Definition without_servers (spec : value) : value :=
  match spec with
  | VDict d => VDict (filter (λ kv, kv.1 ≠ "servers") d)
  | _ => spec
  end.

Definition forget_servers (w : world) : world :=
  World (environ w) (λ p, without_servers <$> files w p) (writable w).

(** After the inputs [pre], the accumulator has its shape, its tags are
    the first occurrences among the entries offered so far, and the set
    holds their names. *)
Definition run_inv (w : world) (pre : list string) (st : dict * gset hkey) : Prop :=
  ∃ P c1 c2 c3 c4,
    st = (mk_out (VDict P) (VDict c1) (VDict c2) (VDict c3) (VDict c4)
            (VList (first_occurrences (all_tags w pre))) (servers_of w),
          names_of (all_tags w pre)).


(** ** Sample documents and worlds *)

Module Sample.

(** Two service specifications that overlap on a path, a schema and a tag. *)
Definition users : value :=
  VDict [
    ("openapi", VStr "3.0.3");
    ("info", VDict [("title", VStr "Users"); ("version", VStr "0.1")]);
    ("servers", VList [VDict [("url", VStr "http://localhost:8081")]]);
    ("paths", VDict [
       ("/x", VDict [("get", VDict [("summary", VStr "from users");
                                    ("operationId", VStr "getX")])])]);
    ("components", VDict [
       ("schemas", VDict [
          ("User", VDict [("properties",
             VDict [("id", VDict [("type", VStr "integer")])])])])]);
    ("tags", VList [VDict [("name", VStr "a")]; VDict [("name", VStr "b")]]) ].

Definition sessions : value :=
  VDict [
    ("paths", VDict [
       ("/x", VDict [("get", VDict [("summary", VStr "from sessions")])])]);
    ("components", VDict [
       ("schemas", VDict [
          ("User", VDict [("properties",
             VDict [("name", VDict [("type", VStr "string")])])])])]);
    ("tags", VList [VDict [("name", VStr "a"); ("description", VStr "X")]]) ].

(** A document whose only tag entry has an empty name. *)
Definition unnamed_tag : value :=
  VDict [("name", VStr ""); ("description", VStr "misc")].

Definition misc : value :=
  VDict [("tags", VList [unnamed_tag])].

(** A document with tags and nothing else; an empty file parses to null. *)
Definition tags_only : value :=
  VDict [("paths", VNull); ("tags", VList [VDict [("name", VStr "c")]])].

Definition files (p : string) : option value :=
  if String.eqb p "users.yaml" then Some users
  else if String.eqb p "sessions.yaml" then Some sessions
  else if String.eqb p "misc.yaml" then Some misc
  else if String.eqb p "tags.yaml" then Some tags_only
  else if String.eqb p "empty.yaml" then Some VNull
  else None.

(** No override in the environment. *)
Definition plain : world := World (λ _, None) files (λ _, true).

(** The override set, with white space around it. *)
Definition overridden : world :=
  World (λ k, if String.eqb k "MERGE_DEFAULT_SERVER"
              then Some "  https://api.example.com " else None)
        files (λ _, true).

(** What [merge_specs plain ["users.yaml"; "sessions.yaml"]] returns. *)
Definition merged : dict :=
  mk_out
    (VDict [("/x", VDict [("get", VDict [("summary", VStr "from sessions");
                                         ("operationId", VStr "getX")])])])
    (VDict [("User", VDict [("properties",
       VDict [("id", VDict [("type", VStr "integer")]);
              ("name", VDict [("type", VStr "string")])])])])
    (VDict []) (VDict []) (VDict [])
    (VList [VDict [("name", VStr "a")]; VDict [("name", VStr "b")]])
    [].

(** What [merge_specs plain ["sessions.yaml"; "users.yaml"]] returns. *)
Definition merged_reversed : dict :=
  mk_out
    (VDict [("/x", VDict [("get", VDict [("summary", VStr "from users");
                                         ("operationId", VStr "getX")])])])
    (VDict [("User", VDict [("properties",
       VDict [("name", VDict [("type", VStr "string")]);
              ("id", VDict [("type", VStr "integer")])])])])
    (VDict []) (VDict []) (VDict [])
    (VList [VDict [("name", VStr "a"); ("description", VStr "X")];
            VDict [("name", VStr "b")]])
    [].

End Sample.

(** The top-level keys of the accumulator, in the order they are inserted. *)
Definition seeded_keys : list string :=
  ["openapi"; "info"; "paths"; "components"; "tags"].

(** A section a document leaves out or sets to null. *)
Definition absent_or_null (k : string) (d : dict) : Prop :=
  dict_get k d = None ∨ dict_get k d = Some VNull.

(** A checker for [wf]. *)
Fixpoint wf_b (v : value) : bool :=
  match v with
  | VList l => forallb wf_b l
  | VDict d => bool_decide (NoDup (keys d)) && forallb (λ kv, wf_b kv.2) d
  | _ => true
  end.

(** Where the deep merges put what they take from the documents. *)
Definition merged_sections : list (list string) :=
  [ ["paths"];
    ["components"; "schemas"];
    ["components"; "securitySchemes"];
    ["components"; "parameters"];
    ["components"; "responses"] ].

(** ** The store

    The functions above work on trees.  Python works on objects: a
    dictionary is updated in place and [deepcopy] allocates new objects.
    This section models [deep_merge_dict] on a store of objects, to relate
    the two. *)

(** The tree-level functions, under names that stay theirs where the
    store-level functions of the same name are in scope. *)
Abbreviation tree_merge := deep_merge_dict (only parsing).
Abbreviation tree_copy := deepcopy (only parsing).

Module Heap.

Definition loc := positive.

(** What a variable or a slot of a container holds: a scalar, or a
    reference to a sequence or mapping object. *)
Inductive hval : Type :=
| HNull
| HBool (b : bool)
| HInt (z : Z)
| HStr (s : string)
| HRef (l : loc).

Inductive hobj : Type :=
| HList (xs : list hval)
| HDict (items : list (string * hval)).

Abbreviation heap := (gmap loc hobj).

Fixpoint hget (k : string) (items : list (string * hval)) : option hval :=
  match items with
  | [] => None
  | (k', x) :: r => if String.eqb k k' then Some x else hget k r
  end.

Fixpoint hset (k : string) (x : hval) (items : list (string * hval))
  : list (string * hval) :=
  match items with
  | [] => [(k, x)]
  | (k', x') :: r =>
      if String.eqb k k' then (k', x) :: r else (k', x') :: hset k x r
  end.

(** [isinstance(x, dict)] *)
Definition is_dict_at (h : heap) (x : hval) : bool :=
  match x with
  | HRef l => match h !! l with Some (HDict _) => true | _ => false end
  | _ => false
  end.

(** [bool(x)] *)
Definition truthy_at (h : heap) (x : hval) : bool :=
  match x with
  | HNull => false
  | HBool b => b
  | HInt z => negb (z =? 0)
  | HStr s => negb (String.eqb s "")
  | HRef l =>
      match h !! l with
      | Some (HList []) | Some (HDict []) | None => false
      | Some _ => true
      end
  end.

(** A loop that threads a state and may run out of fuel. *)
Section MapM.
Context {St A B : Type} (f : A → St → option (B * St)).

Fixpoint mapM (xs : list A) (st : St) : option (list B * St) :=
  match xs with
  | [] => Some ([], st)
  | x :: xs' =>
      r1 ← f x st; r2 ← mapM xs' r1.2; Some (r1.1 :: r2.1, r2.2)
  end.
End MapM.

(** [copy.deepcopy(x, memo)]: a container not yet in [memo] gets a new
    object, entered in [memo] before its contents are copied into it;
    [None] when [fuel] runs out. *)
Fixpoint deepcopy (fuel : nat) (x : hval) (st : gmap loc loc * heap)
  : option (hval * (gmap loc loc * heap)) :=
  match x with
  | HRef l =>
      match st.1 !! l with
      | Some l' => Some (HRef l', st)
      | None =>
          match fuel with
          | O => None
          | S n =>
              let l' := fresh (dom st.2) in
              match st.2 !! l with
              | None => None
              | Some (HList xs) =>
                  r ← mapM (deepcopy n) xs
                        (<[l:=l']> st.1, <[l':=HList []]> st.2);
                  Some (HRef l', (r.2.1, <[l':=HList r.1]> r.2.2))
              | Some (HDict items) =>
                  r ← mapM (λ kx st, r ← deepcopy n kx.2 st;
                                     Some ((kx.1, r.1), r.2)) items
                        (<[l:=l']> st.1, <[l':=HDict []]> st.2);
                  Some (HRef l', (r.2.1, <[l':=HDict r.1]> r.2.2))
              end
          end
      end
  | _ => Some (x, st)
  end.

(** [for k, v in (src or {}).items()]: the entries the loop visits. *)
Definition items_at (h : heap) (src : hval) : result (list (string * hval)) :=
  if truthy_at h src
  then match src with
       | HRef l => match h !! l with
                   | Some (HDict items) => OK items
                   | _ => Raise AttributeError
                   end
       | _ => Raise AttributeError
       end
  else OK [].

(** [dst[k] = deepcopy(v)] *)
Definition assign_copy (fuel : nat) (dst : hval) (k : string) (v : hval)
    (h : heap) : option (result heap) :=
  match deepcopy fuel v (∅, h) with
  | Some (c, (_, h1)) =>
      match dst with
      | HRef ld =>
          match h1 !! ld with
          | Some (HDict ditems) => Some (OK (<[ld:=HDict (hset k c ditems)]> h1))
          | _ => Some (Raise TypeError)
          end
      | _ => Some (Raise TypeError)
      end
  | None => None
  end.

(** [dst[k]] when [k in dst], for a dictionary [dst]. *)
Definition item_at (h : heap) (dst : hval) (k : string) : result (option hval) :=
  match dst with
  | HRef ld =>
      match h !! ld with
      | Some (HDict ditems) => OK (hget k ditems)
      | _ => Raise TypeError
      end
  | _ => Raise TypeError
  end.

(** The body of the loop of [deep_merge_dict]; [self] is the function
    itself, one level of recursion further. *)
Definition merge_entry (self : hval → hval → heap → option (result heap))
    (fuel : nat) (dst : hval) (kv : string * hval) (h : heap)
  : option (result heap) :=
  match item_at h dst kv.1 with
  | Raise e => Some (Raise e)
  | OK (Some xk) =>
      if is_dict_at h xk && is_dict_at h kv.2
      then self xk kv.2 h
      else assign_copy fuel dst kv.1 kv.2 h
  | OK None => assign_copy fuel dst kv.1 kv.2 h
  end.

Section ForEach.
Context {A : Type} (body : A → heap → option (result heap)).

Fixpoint for_each (xs : list A) (h : heap) : option (result heap) :=
  match xs with
  | [] => Some (OK h)
  | x :: xs' =>
      match body x h with
      | Some (OK h') => for_each xs' h'
      | other => other
      end
  end.
End ForEach.

(** [deep_merge_dict(dst, src)] on the store, which it updates in place;
    [None] when [fuel], the depth of recursion allowed, runs out. *)
Fixpoint deep_merge_dict (fuel : nat) (dst src : hval) (h : heap)
  : option (result heap) :=
  match fuel with
  | O => None
  | S n =>
      match items_at h src with
      | Raise e => Some (Raise e)
      | OK items => for_each (merge_entry (deep_merge_dict n) n dst) items h
      end
  end.

(** *** Trees in the store

    [repr h v x f]: in [h], [x] holds the tree [v], built from the objects
    [f], each used once. *)

Section SepAll.
Context {A B : Type} (R : A → B → gset loc → Prop).

Fixpoint sep_all (xs : list A) (ys : list B) (f : gset loc) : Prop :=
  match xs, ys with
  | [], [] => f = ∅
  | x :: xs', y :: ys' =>
      ∃ f1 f2, R x y f1 ∧ sep_all xs' ys' f2 ∧ f1 ## f2 ∧ f = f1 ∪ f2
  | _, _ => False
  end.
End SepAll.

Fixpoint repr (h : heap) (v : value) (x : hval) (f : gset loc) : Prop :=
  match v with
  | VNull => x = HNull ∧ f = ∅
  | VBool b => x = HBool b ∧ f = ∅
  | VInt z => x = HInt z ∧ f = ∅
  | VStr s => x = HStr s ∧ f = ∅
  | VList vs =>
      ∃ l xs f', x = HRef l ∧ h !! l = Some (HList xs) ∧ (l ∉ f') ∧
                 f = {[l]} ∪ f' ∧ sep_all (repr h) vs xs f'
  | VDict d =>
      ∃ l items f', x = HRef l ∧ h !! l = Some (HDict items) ∧ (l ∉ f') ∧
                    f = {[l]} ∪ f' ∧
                    sep_all (λ kv kx g, kv.1 = kx.1 ∧ repr h kv.2 kx.2 g)
                            d items f'
  end.

Definition repr_item (h : heap) (kv : string * value) (kx : string * hval)
    (g : gset loc) : Prop :=
  kv.1 = kx.1 ∧ repr h kv.2 kx.2 g.

(** The depth of nesting of a tree. *)
Fixpoint depth (v : value) : nat :=
  match v with
  | VList vs => S (foldr (λ v n, Nat.max (depth v) n) 0%nat vs)
  | VDict d => S (foldr (λ kv n, Nat.max (depth kv.2) n) 0%nat d)
  | _ => 0%nat
  end.

(** What copying the objects [g] of [h] does: the copy is made of new
    objects [g'], the objects of [h] are as they were, and [memo] has
    learnt the objects copied. *)
Definition copied (h : heap) (memo : gmap loc loc) (g : gset loc)
    (h' : heap) (memo' : gmap loc loc) (g' : gset loc) : Prop :=
  g' ## dom h ∧ g' ⊆ dom h' ∧ dom h ⊆ dom h' ∧
  (∀ l, l ∈ dom h → h' !! l = h !! l) ∧
  dom memo' = dom memo ∪ g.

(** What an update in place of the tree made of [f] does: the store only
    grows, objects outside [f] are as they were, and the tree is now made
    of [f'], objects of [f] and new ones. *)
Definition updated (h : heap) (f : gset loc) (h' : heap) (f' : gset loc) : Prop :=
  dom h ⊆ dom h' ∧
  (∀ l, l ∈ dom h → l ∉ f → h' !! l = h !! l) ∧
  f' ⊆ f ∪ (dom h' ∖ dom h).

(** The tree a value unfolds to when its objects are followed; [None] when
    [fuel] runs out, as it does on a cycle. *)
Fixpoint tree_at (fuel : nat) (h : heap) (x : hval) : option value :=
  match x with
  | HNull => Some VNull
  | HBool b => Some (VBool b)
  | HInt z => Some (VInt z)
  | HStr s => Some (VStr s)
  | HRef l =>
      match fuel with
      | O => None
      | S n =>
          match h !! l with
          | Some (HList xs) => VList <$> list.mapM (tree_at n h) xs
          | Some (HDict items) =>
              VDict <$> list.mapM (λ kx, v ← tree_at n h kx.2; Some (kx.1, v)) items
          | None => None
          end
      end
  end.

(** Line 40 for inputs that are loaded: their [paths] mappings [srcs],
    merged one after the other into [dst], the mapping [out['paths']].
    Each call may recurse to the depth [fuel]. *)
Definition merge_all (fuel : nat) (dst : hval) (srcs : list hval) (h : heap)
  : option (result heap) :=
  for_each (deep_merge_dict fuel dst) srcs h.

End Heap.

(** A store with a destination (object 1) and a source (object 3). *)
Module StoreSample.
Import Heap.

Definition dst_tree : dict :=
  [("a", VDict [("x", VInt 1)]); ("b", VInt 2)].

Definition src_tree : dict :=
  [("a", VDict [("y", VInt 3)]); ("c", VList [VInt 1])].

Definition store : heap :=
  <[1%positive := HDict [("a", HRef 2%positive); ("b", HInt 2)]]>
  (<[2%positive := HDict [("x", HInt 1)]]>
  (<[3%positive := HDict [("a", HRef 4%positive); ("c", HRef 5%positive)]]>
  (<[4%positive := HDict [("y", HInt 3)]]>
  (<[5%positive := HList [HInt 1]]> ∅)))).

End StoreSample.

(** A destination with one object under two keys, as [deepcopy] leaves it
    when a document has [get: &op {summary: s1}] and [post: *op]. *)
Module AliasSample.
Import Heap.

Definition dst_tree : dict :=
  [("get", VDict [("summary", VStr "s1")]);
   ("post", VDict [("summary", VStr "s1")])].

Definition src_tree : dict :=
  [("get", VDict [("summary", VStr "s2")])].

Definition store : heap :=
  <[1%positive := HDict [("get", HRef 2%positive); ("post", HRef 2%positive)]]>
  (<[2%positive := HDict [("summary", HStr "s1")]]>
  (<[3%positive := HDict [("get", HRef 4%positive)]]>
  (<[4%positive := HDict [("summary", HStr "s2")]]> ∅))).

(** Two loaded documents and the empty [out['paths']] (object 1).  The
    [paths] of the first (object 2) has one operation object under [get]
    and [post]; the [paths] of the second (object 5) has an operation of
    its own under each. *)
Definition first_paths : value :=
  VDict [("/x", VDict [("get", VDict [("summary", VStr "s1")]);
                       ("post", VDict [("summary", VStr "s1")])])].

Definition second_paths : value :=
  VDict [("/x", VDict [("post", VDict [("summary", VStr "s2")]);
                       ("get", VDict [("summary", VStr "s3")])])].

Definition inputs : heap :=
  <[1%positive := HDict []]>
  (<[2%positive := HDict [("/x", HRef 3%positive)]]>
  (<[3%positive := HDict [("get", HRef 4%positive); ("post", HRef 4%positive)]]>
  (<[4%positive := HDict [("summary", HStr "s1")]]>
  (<[5%positive := HDict [("/x", HRef 6%positive)]]>
  (<[6%positive := HDict [("post", HRef 7%positive); ("get", HRef 8%positive)]]>
  (<[7%positive := HDict [("summary", HStr "s2")]]>
  (<[8%positive := HDict [("summary", HStr "s3")]]> ∅))))))).

End AliasSample.

(** A document with a recursive anchor, [paths: {/n: &n {child: *n}}],
    loaded twice (objects 2 and 3, objects 4 and 5), and the empty
    [out['paths']] (object 1). *)
Module CycleSample.
Import Heap.

Definition store : heap :=
  <[1%positive := HDict []]>
  (<[2%positive := HDict [("/n", HRef 3%positive)]]>
  (<[3%positive := HDict [("child", HRef 3%positive)]]>
  (<[4%positive := HDict [("/n", HRef 5%positive)]]>
  (<[5%positive := HDict [("child", HRef 5%positive)]]> ∅)))).

End CycleSample.

(** A string of white space only. *)
Definition blank (s : string) : bool := forallb is_space (utf8_chars s).

(** ** Vocabulary of the further properties *)

(** The exception a computation ends on, if it ends on one. *)
Definition raised {A} (r : result A) : option exn :=
  match r with OK _ => None | Raise e => Some e end.

(** The first exception of a sequence of checks. *)
Definition first_error (es : list (option exn)) : option exn :=
  head (omap id es).

(** What is wrong with a section handed to [deep_merge_dict] as its
    source: it is truthy and has no [items]. *)
Definition section_error (v : value) : option exn :=
  if truthy v && negb (is_dict v) then Some AttributeError else None.

Definition components_error (raw : value) : option exn :=
  match py_or raw (VDict []) with
  | VDict c =>
      first_error
        (map (λ key, section_error (default (VDict []) (dict_get key c)))
             component_keys)
  | _ => Some AttributeError
  end.

(** What is wrong with a tag entry: it has no [get], or its name is truthy
    and cannot be a member of a set. *)
Definition tag_error (t : value) : option exn :=
  match t with
  | VDict d =>
      let name := default VNull (dict_get "name" d) in
      if truthy name then raised (py_hash name) else None
  | _ => Some AttributeError
  end.

Definition tags_error (raw : value) : option exn :=
  match py_iter (py_or raw (VList [])) with
  | OK ts => first_error (map tag_error ts)
  | Raise e => Some e
  end.

(** What is wrong with a document, in the order [merge_specs] meets it. *)
Definition doc_error (spec : value) : option exn :=
  match spec with
  | VDict d =>
      first_error
        [ section_error (default (VDict []) (dict_get "paths" d));
          components_error (default (VDict []) (dict_get "components" d));
          tags_error (default (VList []) (dict_get "tags" d)) ]
  | _ => Some AttributeError
  end.

(** A mapping cut down to the keys [ks]. *)
Definition restrict (ks : list string) (v : value) : value :=
  match v with
  | VDict d => VDict (filter (λ kv, kv.1 ∈ ks) d)
  | _ => v
  end.

(** The keys [merge_specs] asks a document for. *)
Definition read_keys : list string := ["paths"; "components"; "tags"].

(** A document cut down to what [merge_specs] asks for: the three
    sections, and of the components the four containers. *)
Definition sections_read (spec : value) : value :=
  match spec with
  | VDict d =>
      VDict (map (λ kv, (kv.1, if String.eqb kv.1 "components"
                               then restrict component_keys kv.2 else kv.2))
                 (filter (λ kv, kv.1 ∈ read_keys) d))
  | _ => spec
  end.

Definition only_read (w : world) : world :=
  World (environ w) (λ p, sections_read <$> files w p) (writable w).

(** * Properties *)

(** ** Dictionaries *)

Section DictFacts.
Implicit Types (k : string) (v : value) (d : dict).

Lemma dict_get_set_eq k v d : dict_get k (dict_set k v d) = Some v.
Proof.
  induction d as [|[k' v'] r IH]; simpl.
  - by rewrite String.eqb_refl.
  - destruct (String.eqb k k') eqn:E; simpl; by rewrite E.
Qed.

Lemma dict_get_set_ne k k' v d :
  k ≠ k' → dict_get k' (dict_set k v d) = dict_get k' d.
Proof.
  intros Hne. induction d as [|[k0 v0] r IH]; simpl.
  - apply String.eqb_neq in Hne. by rewrite String.eqb_sym, Hne.
  - destruct (String.eqb_spec k k0) as [->|Hk]; simpl.
    + by destruct (String.eqb_spec k' k0) as [->|].
    + by rewrite IH.
Qed.

Lemma dict_set_same k v d : dict_get k d = Some v → dict_set k v d = d.
Proof.
  induction d as [|[k' v'] r IH]; simpl; [done|].
  destruct (String.eqb k k'); [by intros [= ->]|].
  by intros ?; rewrite IH.
Qed.

Lemma dict_get_Some_keys k v d : dict_get k d = Some v → k ∈ keys d.
Proof.
  induction d as [|[k' v'] r IH]; simpl; [done|].
  destruct (String.eqb_spec k k') as [->|]; [left|right; auto].
Qed.

Lemma dict_get_None_keys k d : dict_get k d = None ↔ k ∉ keys d.
Proof.
  induction d as [|[k' v'] r IH]; simpl.
  - split; [intros _; apply not_elem_of_nil | done].
  - rewrite not_elem_of_cons, <- IH.
    destruct (String.eqb_spec k k') as [->|Hne]; [|tauto].
    split; [done|]. by intros [[] _].
Qed.

Lemma dict_get_head k v d : dict_get k ((k, v) :: d) = Some v.
Proof. simpl. by rewrite String.eqb_refl. Qed.

Lemma dict_get_In k v d : NoDup (keys d) → (k, v) ∈ d → dict_get k d = Some v.
Proof.
  induction d as [|[k' v'] r IH]; simpl; [by intros _ ?%elem_of_nil|].
  rewrite NoDup_cons. intros [Hk Hr] [[= -> ->]|Hin]%elem_of_cons.
  - by rewrite String.eqb_refl.
  - destruct (String.eqb_spec k k') as [->|]; [|by auto].
    destruct Hk. by apply (list_elem_of_fmap_2 fst) in Hin.
Qed.

(** Assignment keeps the keys in place and appends a new one. *)
Lemma keys_dict_set k v d :
  keys (dict_set k v d) = if decide (k ∈ keys d) then keys d else keys d ++ [k].
Proof.
  induction d as [|[k' v'] r IH]; simpl; [done|].
  destruct (String.eqb_spec k k') as [->|Hne]; simpl.
  - by rewrite decide_True by left.
  - rewrite IH. destruct (decide (k ∈ keys r)).
    + by rewrite decide_True by (by right).
    + rewrite decide_False; [done|]. by rewrite not_elem_of_cons.
Qed.

Lemma dict_set_app_new k v d : k ∉ keys d → dict_set k v d = d ++ [(k, v)].
Proof.
  induction d as [|[k' v'] r IH]; simpl; [done|].
  rewrite not_elem_of_cons. intros [Hne Hr].
  apply String.eqb_neq in Hne. by rewrite Hne, IH.
Qed.
End DictFacts.

(** [deepcopy] returns a tree equal to its argument. *)
Lemma deepcopy_eq (v : value) : deepcopy v = v.
Proof.
  induction v as [| | | |l IH|d IH] using value_tree_ind; simpl; try done; f_equal.
  - induction IH as [|x r Hx _ IHr]; simpl; [done|]. by rewrite Hx, IHr.
  - induction IH as [|[k x] r Hx _ IHr]; simpl in *; [done|].
    by rewrite Hx, IHr.
Qed.

(** [wf], unfolded one level. *)
Lemma wf_dict (d : dict) :
  wf (VDict d) ↔ NoDup (keys d) ∧ Forall (λ kv, wf kv.2) d.
Proof.
  simpl. apply and_iff_compat_l.
  induction d as [|kv r IH]; [by split; [constructor|]|].
  rewrite Forall_cons. by rewrite IH.
Qed.

Lemma wf_list (l : list value) : wf (VList l) ↔ Forall wf l.
Proof.
  simpl. induction l as [|x r IH]; [by split; [constructor|]|].
  rewrite Forall_cons. by rewrite IH.
Qed.

Lemma wf_dict_get k v d : wf (VDict d) → dict_get k d = Some v → wf v.
Proof.
  rewrite wf_dict. intros [_ Hall].
  induction Hall as [|[k' v'] r Hx _ IH]; simpl; [done|].
  destruct (String.eqb k k'); [by intros [= <-]|done].
Qed.


(** ** [strip] *)

Lemma utf8_chars_step s :
  s ≠ "" → ∃ c r, c ≠ "" ∧ s = c +:+ r ∧ utf8_chars s = c :: utf8_chars r ∧
                  (String.length r < String.length s)%nat.
Proof.
  destruct s as [|c1 r1]; [done|]. intros _.
  destruct r1 as [|c2 r2].
  { exists (String c1 ""), "". by repeat split; simpl; try lia. }
  cbn [utf8_chars].
  destruct (byte_in 194 223 c1 && is_cont c2).
  { exists (String c1 (String c2 "")), r2. repeat split; simpl; try done; lia. }
  destruct r2 as [|c3 r3].
  { exists (String c1 ""), (String c2 ""). repeat split; simpl; try done; lia. }
  destruct (byte_in 224 239 c1 && is_cont c2 && is_cont c3).
  { exists (String c1 (String c2 (String c3 ""))), r3.
    repeat split; simpl; try done; lia. }
  destruct r3 as [|c4 r4].
  { exists (String c1 ""), (String c2 (String c3 "")).
    repeat split; simpl; try done; lia. }
  destruct (byte_in 240 244 c1 && is_cont c2 && is_cont c3 && is_cont c4).
  { exists (String c1 (String c2 (String c3 (String c4 "")))), r4.
    repeat split; simpl; try done; lia. }
  exists (String c1 ""), (String c2 (String c3 (String c4 r4))).
  repeat split; simpl; try done; lia.
Qed.

Lemma utf8_chars_ind (P : string → Prop) :
  P "" →
  (∀ c r, c ≠ "" → utf8_chars (c +:+ r) = c :: utf8_chars r → P r → P (c +:+ r)) →
  ∀ s, P s.
Proof.
  intros Hnil Hstep s. remember (String.length s) as n eqn:Hn. revert s Hn.
  induction n as [n IH] using lt_wf_ind. intros s Hn.
  destruct (decide (s = "")) as [->|Hs]; [done|].
  destruct (utf8_chars_step s Hs) as (c & r & Hc & -> & Hch & Hlen).
  apply Hstep; [done..|]. apply (IH (String.length r)); [lia|done].
Qed.

(** The characters of a string make up the string, and none is empty. *)
Lemma join_utf8_chars s : join (utf8_chars s) = s.
Proof.
  induction s as [|c r Hc Hch IH] using utf8_chars_ind; [done|].
  rewrite Hch. simpl. by rewrite IH.
Qed.

Lemma utf8_chars_nonempty s : Forall (λ c, c ≠ "") (utf8_chars s).
Proof.
  induction s as [|c r Hc Hch IH] using utf8_chars_ind; [constructor|].
  rewrite Hch. by constructor.
Qed.

Lemma join_empty l : Forall (λ c, c ≠ "") l → join l = "" → l = [].
Proof.
  destruct 1 as [|c r Hc _]; [done|]. simpl. by destruct c.
Qed.

Lemma lstrip_chars_spec l :
  ∃ L, l = L ++ lstrip_chars l ∧ forallb is_space L = true ∧
       ∀ c, head (lstrip_chars l) = Some c → is_space c = false.
Proof.
  induction l as [|c r (L & HL & Hsp & Hhd)]; [by exists []|]. simpl.
  destruct (is_space c) eqn:Ec.
  - exists (c :: L). simpl. rewrite Ec, Hsp. split; [by f_equal|done].
  - exists []. split; [done|]. split; [done|]. by intros ? [= <-].
Qed.

Lemma forallb_reverse {A} (f : A → bool) l :
  forallb f (reverse l) = forallb f l.
Proof.
  induction l as [|x r IH]; [done|].
  rewrite reverse_cons, forallb_app, IH. simpl. by rewrite andb_true_r, andb_comm.
Qed.

Lemma rstrip_chars_spec l :
  ∃ R, l = rstrip_chars l ++ R ∧ forallb is_space R = true ∧
       ∀ c, last (rstrip_chars l) = Some c → is_space c = false.
Proof.
  unfold rstrip_chars.
  destruct (lstrip_chars_spec (reverse l)) as (L & HL & Hsp & Hhd).
  exists (reverse L). split; [|split].
  - by rewrite <- reverse_app, <- HL, reverse_involutive.
  - by rewrite forallb_reverse.
  - intros c. rewrite last_reverse. apply Hhd.
Qed.

(** [strip] takes the white space off both ends, and nothing else. *)
Lemma strip_spec s :
  ∃ L M R,
    utf8_chars s = L ++ M ++ R ∧ strip s = join M ∧
    forallb is_space L = true ∧ forallb is_space R = true ∧
    (∀ c, head M = Some c → is_space c = false) ∧
    (∀ c, last M = Some c → is_space c = false).
Proof.
  unfold strip.
  destruct (lstrip_chars_spec (utf8_chars s)) as (L & HL & HLsp & Hhd).
  destruct (rstrip_chars_spec (lstrip_chars (utf8_chars s))) as (R & HR & HRsp & Hlast).
  exists L, (rstrip_chars (lstrip_chars (utf8_chars s))), R.
  split; [by rewrite <- HR|]. split; [done|]. split; [done|]. split; [done|].
  split; [|done]. intros c Hc. apply Hhd. rewrite HR.
  by destruct (rstrip_chars _).
Qed.

(** [strip] leaves nothing exactly when there is only white space. *)
Lemma strip_blank s : strip s = "" ↔ blank s = true.
Proof.
  destruct (strip_spec s) as (L & M & R & Hs & -> & HL & HR & Hhd & _).
  unfold blank. rewrite Hs, !forallb_app, HL, HR. simpl.
  rewrite andb_true_r. split.
  - intros HM. apply join_empty in HM as ->; [done|].
    pose proof (utf8_chars_nonempty s) as Hne. rewrite Hs in Hne.
    by apply Forall_app in Hne as [_ [? _]%Forall_app].
  - destruct M as [|c M']; [done|]. simpl. by rewrite (Hhd c eq_refl).
Qed.

Example strip_url : strip "  https://api.example.com " = "https://api.example.com".
Proof. reflexivity. Qed.

(** Around "a", U+2003, "b": U+3000 and U+00A0 in front, U+0085 and a
    line feed behind. *)
Example strip_unicode :
  strip (of_bytes [227;128;128; 194;160; 97; 226;128;131; 98; 194;133; 10]%nat)
  = of_bytes [97; 226;128;131; 98]%nat.
Proof. reflexivity. Qed.

(** ** [deep_merge_dict] *)

Lemma deep_merge_dict_items dst items :
  deep_merge_dict dst (VDict items) = merge_items dst items.
Proof.
  revert dst. induction items as [|[k v] rest IH]; intros dst; [done|].
  simpl. unfold merge_entry. destruct dst as [| | | | |d]; try done.
  assert (∀ r, (dst' ← r; deep_merge_dict dst' (VDict rest))
             = (dst' ← r; merge_items dst' rest)) as Hr.
  { intros [x|e]; simpl; [apply IH|done]. }
  apply Hr.
Qed.

Lemma deep_merge_dict_leaf dst src :
  is_dict src = false →
  deep_merge_dict dst src = if truthy src then Raise AttributeError else OK dst.
Proof. by destruct src. Qed.

Lemma deep_merge_dict_falsy dst src :
  truthy src = false → deep_merge_dict dst src = OK dst.
Proof.
  destruct src as [| | | | |[|kv r]]; try done;
    intros E; by rewrite deep_merge_dict_leaf, E.
Qed.

Lemma deep_merge_dict_empty dst : deep_merge_dict dst (VDict []) = OK dst.
Proof. done. Qed.

Lemma bind_OK {A B} (r : result A) (f : A → result B) b :
  (r ≫= f) = OK b ↔ ∃ a, r = OK a ∧ f a = OK b.
Proof.
  destruct r as [a|e]; simpl; split.
  - by exists a.
  - by intros (a' & [= ->] & ?).
  - done.
  - by intros (? & ? & ?).
Qed.

(** Merging a mapping into a mapping never raises and gives a mapping. *)
Lemma deep_merge_dict_total src :
  ∀ d, is_dict src = true → ∃ d', deep_merge_dict (VDict d) src = OK (VDict d').
Proof.
  induction src as [| | | | |items IH] using value_tree_ind; try done.
  intros d _. rewrite deep_merge_dict_items.
  revert d. induction IH as [|[k v] rest Hv _ IHrest]; intros d; simpl in *.
  - by exists d.
  - assert (∃ d1, merge_entry (VDict d) k v = OK (VDict d1)) as [d1 ->].
    { unfold merge_entry. destruct (dict_get k d) as [[| | | | |dk]|]; eauto.
      destruct (is_dict v) eqn:Ev; [|eauto].
      destruct (Hv dk eq_refl) as [r ->]. simpl. eauto. }
    simpl. apply IHrest.
Qed.

Lemma entry_rule_total old v : ∃ new, entry_rule old v new.
Proof.
  unfold entry_rule. destruct old as [[| | | | |dk]|]; eauto.
  destruct (is_dict v) eqn:Ev; [|eauto].
  destruct (deep_merge_dict_total v dk Ev) as [r Hr]. eauto.
Qed.

Lemma merge_entry_rule d k v dst' :
  merge_entry (VDict d) k v = OK dst' ↔
  ∃ new, entry_rule (dict_get k d) v new ∧ dst' = VDict (dict_set k new d).
Proof.
  unfold merge_entry, entry_rule.
  destruct (dict_get k d) as [[| | | | |dk]|];
    try (split; [intros [= <-]; eauto | by intros (? & -> & ->)]).
  destruct (is_dict v);
    [|split; [intros [= <-]; eauto | by intros (? & -> & ->)]].
  rewrite bind_OK. split.
  - intros (r & Hr & [= <-]). eauto.
  - intros (r & Hr & ->). eauto.
Qed.

Lemma merge_items_dict items : ∀ dst dst',
  merge_items dst items = OK dst' → items ≠ [] → is_dict dst = true.
Proof.
  destruct items as [|[k v] rest]; [done|]. intros dst dst' H _.
  by destruct dst.
Qed.

(** Keys the source does not mention keep their value. *)
Lemma merge_items_untouched items : ∀ d d' k,
  merge_items (VDict d) items = OK (VDict d') →
  k ∉ keys items → dict_get k d' = dict_get k d.
Proof.
  induction items as [|[k0 v0] rest IH]; intros d d' k; simpl.
  - by intros [= ->].
  - rewrite bind_OK. intros (dst1 & H1 & Hrest) [Hne Hk]%not_elem_of_cons.
    apply merge_entry_rule in H1 as (new & _ & ->).
    rewrite (IH _ _ _ Hrest Hk). by apply dict_get_set_ne.
Qed.

(** The merge rule, key by key. *)
Lemma merge_items_rule items : ∀ d,
  NoDup (keys items) →
  ∃ d', merge_items (VDict d) items = OK (VDict d') ∧
    (∀ k v, dict_get k items = Some v →
       ∃ new, dict_get k d' = Some new ∧ entry_rule (dict_get k d) v new) ∧
    (∀ k, dict_get k items = None → dict_get k d' = dict_get k d).
Proof.
  induction items as [|[k0 v0] rest IH]; intros d; simpl.
  - intros _. exists d. done.
  - rewrite NoDup_cons. intros [Hk0 Hnd].
    destruct (entry_rule_total (dict_get k0 d) v0) as [new0 Hnew0].
    destruct (IH (dict_set k0 new0 d) Hnd) as (d' & Hd' & Hin & Hout).
    exists d'. split; [|split].
    + apply bind_OK. exists (VDict (dict_set k0 new0 d)). split; [|done].
      apply merge_entry_rule. eauto.
    + intros k v. destruct (String.eqb_spec k k0) as [->|Hne].
      * intros [= <-]. exists new0. split; [|done].
        rewrite Hout by by apply dict_get_None_keys.
        apply dict_get_set_eq.
      * intros Hk. destruct (Hin k v Hk) as (new & Hg & Hr).
        exists new. split; [done|]. by rewrite dict_get_set_ne in Hr.
    + intros k. destruct (String.eqb_spec k k0) as [->|Hne]; [done|].
      intros Hk. rewrite (Hout k Hk). by apply dict_get_set_ne.
Qed.

(** The merge rule on trees, for a source that holds each key once. *)
Lemma deep_merge_dict_by_key (D S : dict) :
  NoDup (keys S) →
  ∃ D', deep_merge_dict (VDict D) (VDict S) = OK (VDict D') ∧
    (∀ k v, dict_get k S = Some v →
       match dict_get k D with
       | Some (VDict dk) =>
           if is_dict v
           then ∃ r, deep_merge_dict (VDict dk) v = OK r ∧ dict_get k D' = Some r
           else dict_get k D' = Some (deepcopy v)
       | _ => dict_get k D' = Some (deepcopy v)
       end) ∧
    (∀ k, dict_get k S = None → dict_get k D' = dict_get k D).
Proof.
  intros Hnd. rewrite deep_merge_dict_items.
  destruct (merge_items_rule S D Hnd) as (D' & HD' & Hin & Hout).
  exists D'. split; [done|]. split; [|done].
  intros k v Hk. destruct (Hin k v Hk) as (new & Hg & Hr).
  unfold entry_rule in Hr.
  destruct (dict_get k D) as [[| | | | |dk]|]; try by subst.
  destruct (is_dict v); [eauto|by subst].
Qed.

(** Merging into a mapping that shares no key with the source appends the
    source. *)
Lemma merge_items_disjoint items : ∀ d,
  NoDup (keys items) → (∀ k, k ∈ keys items → k ∉ keys d) →
  merge_items (VDict d) items = OK (VDict (d ++ items)).
Proof.
  induction items as [|[k v] rest IH]; intros d; simpl.
  - intros _ _. by rewrite app_nil_r.
  - rewrite NoDup_cons. intros [Hk Hnd] Hdis.
    assert (merge_entry (VDict d) k v = OK (VDict (d ++ [(k, v)]))) as ->.
    { apply merge_entry_rule. exists v. split.
      - unfold entry_rule.
        assert (dict_get k d = None) as ->; [|by rewrite deepcopy_eq].
        apply dict_get_None_keys, Hdis. by left.
      - rewrite dict_set_app_new; [done|]. apply Hdis. by left. }
    simpl. rewrite IH; [by rewrite <- app_assoc|done|].
    intros k' Hk'. unfold keys. rewrite fmap_app, not_elem_of_app. split.
    + apply Hdis. by right.
    + simpl. rewrite list_elem_of_singleton. by intros ->.
Qed.

Lemma deep_merge_dict_into_empty s :
  NoDup (keys s) → deep_merge_dict (VDict []) (VDict s) = OK (VDict s).
Proof.
  intros Hnd. rewrite deep_merge_dict_items.
  rewrite merge_items_disjoint; [done|done|]. intros k _. apply not_elem_of_nil.
Qed.

Lemma Forall_dict_get (P : value → Prop) k v d :
  Forall (λ kv, P kv.2) d → dict_get k d = Some v → P v.
Proof.
  induction 1 as [|[k' v'] r Hx _ IH]; simpl; [done|].
  destruct (String.eqb k k'); [by intros [= <-]|done].
Qed.

Lemma merge_items_result_dict items : ∀ d dst',
  merge_items (VDict d) items = OK dst' → ∃ d', dst' = VDict d'.
Proof.
  induction items as [|[k v] rest IH]; intros d dst'; simpl.
  - intros [= <-]. eauto.
  - rewrite bind_OK. intros (dst1 & H1 & Hrest).
    apply merge_entry_rule in H1 as (new & _ & ->). eauto.
Qed.

Lemma entry_rule_again old v new :
  wf v →
  (∀ dst dst', deep_merge_dict dst v = OK dst' → deep_merge_dict dst' v = OK dst') →
  entry_rule old v new → entry_rule (Some new) v new.
Proof.
  intros Hwf Hagain. unfold entry_rule. destruct (is_dict v) eqn:Ev.
  - destruct v as [| | | | |s]; try done.
    assert (deep_merge_dict (VDict s) (VDict s) = OK (VDict s)) as Hself.
    { apply (Hagain (VDict [])), deep_merge_dict_into_empty.
      by apply wf_dict in Hwf as [? _]. }
    destruct old as [[| | | | |dk]|];
      try (intros ->; by rewrite deepcopy_eq).
    intros Hnew.
    destruct (deep_merge_dict_total (VDict s) dk eq_refl) as [dn Hdn].
    rewrite Hdn in Hnew. injection Hnew as <-. by apply (Hagain (VDict dk)).
  - assert (new = deepcopy v → match new with
                               | VDict _ => new = deepcopy v
                               | _ => new = deepcopy v
                               end) as Hsame by by destruct new.
    destruct old as [[| | | | |dk]|]; apply Hsame.
Qed.

(** Merging the same source a second time changes nothing. *)
Lemma deep_merge_dict_again src :
  wf src → ∀ dst dst',
  deep_merge_dict dst src = OK dst' → deep_merge_dict dst' src = OK dst'.
Proof.
  induction src as [| | | | |items IH] using value_tree_ind;
    try (intros _ dst dst'; rewrite !deep_merge_dict_leaf by done;
         by destruct (truthy _); [|intros [= ->]]).
  rewrite wf_dict. intros [Hnd Hwf] dst dst'.
  rewrite !deep_merge_dict_items.
  revert dst dst'.
  induction items as [|[k v] rest IHrest]; intros dst dst'; simpl.
  { by intros [= ->]. }
  apply Forall_cons in IH as [IHv IHr]. apply Forall_cons in Hwf as [Hwv Hwr].
  apply NoDup_cons in Hnd as [Hk Hnd]. fold (keys rest) in Hk, Hnd.
  cbn [fst snd] in IHv, Hwv, Hk.
  rewrite bind_OK. intros (dst1 & H1 & Hrest).
  destruct dst as [| | | | |d]; try done.
  apply merge_entry_rule in H1 as (new & Hnew & ->).
  destruct (merge_items_result_dict _ _ _ Hrest) as [d' ->].
  assert (dict_get k d' = Some new) as Hk'.
  { rewrite (merge_items_untouched _ _ _ _ Hrest Hk). apply dict_get_set_eq. }
  assert (merge_entry (VDict d') k v = OK (VDict d')) as ->.
  { apply merge_entry_rule. exists new. split; [|by rewrite dict_set_same].
    rewrite Hk'. apply (entry_rule_again (dict_get k d)); [done| |done].
    by apply IHv. }
  simpl. by apply (IHrest IHr Hnd Hwr (VDict (dict_set k new d))).
Qed.

Lemma deep_merge_dict_self s :
  wf (VDict s) → deep_merge_dict (VDict s) (VDict s) = OK (VDict s).
Proof.
  intros Hwf. apply (deep_merge_dict_again _ Hwf (VDict [])).
  apply deep_merge_dict_into_empty. by apply wf_dict in Hwf as [? _].
Qed.

(** Below a key path of the source whose end is not a mapping on both
    sides, the merged mapping holds the source's value. *)
Lemma deep_merge_dict_path p : ∀ d s d' vs,
  wf (VDict s) → p ≠ [] →
  deep_merge_dict (VDict d) (VDict s) = OK (VDict d') →
  at_path p (VDict s) = Some vs →
  (is_dict vs = true → ∀ vd, at_path p (VDict d) = Some vd → is_dict vd = false) →
  at_path p (VDict d') = Some vs.
Proof.
  induction p as [|k p IH]; [done|]. intros d s d' vs Hwf _ Hm Hs Hcond.
  simpl in Hs. destruct (dict_get k s) as [sk|] eqn:Hk; [|done].
  pose proof (wf_dict_get _ _ _ Hwf Hk) as Hwsk.
  apply wf_dict in Hwf as [Hnd _].
  rewrite deep_merge_dict_items in Hm.
  destruct (merge_items_rule s d Hnd) as (d'' & Hd'' & Hin & _).
  rewrite Hd'' in Hm. injection Hm as ->.
  destruct (Hin k sk Hk) as (new & Hg & Hr).
  simpl. rewrite Hg. simpl in Hcond. unfold entry_rule in Hr.
  destruct (dict_get k d) as [[| | | | |dk]|];
    try by (subst new; rewrite deepcopy_eq).
  destruct (is_dict sk) eqn:Esk; [|by subst new; rewrite deepcopy_eq].
  destruct p as [|k' p'].
  - simpl in *. injection Hs as <-. by specialize (Hcond Esk _ eq_refl).
  - destruct sk as [| | | | |ssk]; try done.
    destruct (deep_merge_dict_total (VDict ssk) dk eq_refl) as [dn Hdn].
    rewrite Hdn in Hr. injection Hr as <-.
    by apply (IH dk ssk dn vs).
Qed.

(** ** The accumulator *)

Lemma seed_mk_out w :
  seed w = mk_out (VDict []) (VDict []) (VDict []) (VDict []) (VDict [])
                  (VList []) (servers_of w).
Proof. unfold seed, servers_of. by destruct (truthy _). Qed.

Lemma merge_paths_mk_out P c1 c2 c3 c4 T srv spec :
  merge_paths (mk_out P c1 c2 c3 c4 T srv) spec =
  (src ← py_get spec "paths" (VDict []);
   P' ← deep_merge_dict P src;
   OK (mk_out P' c1 c2 c3 c4 T srv)).
Proof. done. Qed.

Lemma merge_component_mk_out comps P c1 c2 c3 c4 T srv :
  let out := mk_out P c1 c2 c3 c4 T srv in
  merge_component comps out "schemas" =
    (s ← py_get comps "schemas" (VDict []);
     c ← deep_merge_dict c1 (py_or s (VDict []));
     OK (mk_out P c c2 c3 c4 T srv)) ∧
  merge_component comps out "securitySchemes" =
    (s ← py_get comps "securitySchemes" (VDict []);
     c ← deep_merge_dict c2 (py_or s (VDict []));
     OK (mk_out P c1 c c3 c4 T srv)) ∧
  merge_component comps out "parameters" =
    (s ← py_get comps "parameters" (VDict []);
     c ← deep_merge_dict c3 (py_or s (VDict []));
     OK (mk_out P c1 c2 c c4 T srv)) ∧
  merge_component comps out "responses" =
    (s ← py_get comps "responses" (VDict []);
     c ← deep_merge_dict c4 (py_or s (VDict []));
     OK (mk_out P c1 c2 c3 c T srv)).
Proof. done. Qed.

Lemma merge_components_mk_out P c1 c2 c3 c4 T srv spec :
  merge_components (mk_out P c1 c2 c3 c4 T srv) spec =
  (raw ← py_get spec "components" (VDict []);
   let comps := py_or raw (VDict []) in
   s1 ← py_get comps "schemas" (VDict []);
   c1' ← deep_merge_dict c1 (py_or s1 (VDict []));
   s2 ← py_get comps "securitySchemes" (VDict []);
   c2' ← deep_merge_dict c2 (py_or s2 (VDict []));
   s3 ← py_get comps "parameters" (VDict []);
   c3' ← deep_merge_dict c3 (py_or s3 (VDict []));
   s4 ← py_get comps "responses" (VDict []);
   c4' ← deep_merge_dict c4 (py_or s4 (VDict []));
   OK (mk_out P c1' c2' c3' c4' T srv)).
Proof.
  unfold merge_components. destruct (py_get spec "components" _) as [raw|e]; [|done].
  cbn [mbind result_bind]. generalize (py_or raw (VDict [])). intros comps.
  unfold component_keys. cbn [foldM].
  destruct (merge_component_mk_out comps P c1 c2 c3 c4 T srv) as (-> & _).
  destruct (py_get comps "schemas" _) as [s1|]; [|done]. cbn [mbind result_bind].
  destruct (deep_merge_dict c1 _) as [c1'|]; [|done]. cbn [mbind result_bind].
  destruct (merge_component_mk_out comps P c1' c2 c3 c4 T srv) as (_ & -> & _).
  destruct (py_get comps "securitySchemes" _) as [s2|]; [|done]. cbn [mbind result_bind].
  destruct (deep_merge_dict c2 _) as [c2'|]; [|done]. cbn [mbind result_bind].
  destruct (merge_component_mk_out comps P c1' c2' c3 c4 T srv) as (_ & _ & -> & _).
  destruct (py_get comps "parameters" _) as [s3|]; [|done]. cbn [mbind result_bind].
  destruct (deep_merge_dict c3 _) as [c3'|]; [|done]. cbn [mbind result_bind].
  destruct (merge_component_mk_out comps P c1' c2' c3' c4 T srv) as (_ & _ & _ & ->).
  destruct (py_get comps "responses" _) as [s4|]; [|done]. cbn [mbind result_bind].
  by destruct (deep_merge_dict c4 _) as [c4'|].
Qed.

(** ** Tags *)

#[local] Set Warnings "-clear-no-such-hyp".

Lemma foldM_ind {A B} (f : A → B → result A) (I : list B → A → Prop) :
  (∀ pre a x a', I pre a → f a x = OK a' → I (pre ++ [x]) a') →
  ∀ l pre a a', I pre a → foldM f a l = OK a' → I (pre ++ l) a'.
Proof.
  intros Hstep. induction l as [|x r IH]; intros pre a a' Ha; simpl.
  - intros [= <-]. by rewrite app_nil_r.
  - rewrite bind_OK. intros (a1 & H1 & Hr).
    rewrite (assoc_L (++) pre [x] r : pre ++ x :: r = (pre ++ [x]) ++ r).
    eapply IH; [|done]. by eapply Hstep.
Qed.

Lemma names_of_nil : names_of [] = ∅.
Proof. done. Qed.

Lemma names_of_cons t ts :
  names_of (t :: ts) = names_of [t] ∪ names_of ts.
Proof.
  unfold names_of. simpl. destruct (tag_key t); simpl; set_solver.
Qed.

Lemma names_of_app l1 l2 : names_of (l1 ++ l2) = names_of l1 ∪ names_of l2.
Proof.
  induction l1 as [|t r IH]; simpl.
  - rewrite names_of_nil. set_solver.
  - rewrite names_of_cons, (names_of_cons t r), IH. set_solver.
Qed.

Lemma first_occurrences_cons t ts :
  first_occurrences (t :: ts) =
  match tag_key t with
  | Some h => t :: filter (λ u, ¬ named h u) (first_occurrences ts)
  | None => first_occurrences ts
  end.
Proof. done. Qed.

(** What one more entry in front does to the entries not yet seen. *)
Lemma unseen_first_occurrences_cons seen t ts :
  filter (unseen seen) (first_occurrences (t :: ts)) =
  filter (unseen seen) (first_occurrences [t]) ++
  filter (unseen (seen ∪ names_of [t])) (first_occurrences ts).
Proof.
  rewrite !first_occurrences_cons. unfold names_of. simpl.
  destruct (tag_key t) as [h|] eqn:Ht; simpl.
  - assert (filter (unseen seen) (filter (λ u, ¬ named h u) (first_occurrences ts))
            = filter (unseen (seen ∪ ({[h]} ∪ ∅))) (first_occurrences ts)) as Hf.
    { rewrite list_filter_filter. apply list_filter_iff. intros u.
      unfold unseen, named. destruct (tag_key u) as [h'|].
      - split.
        + intros [H1 H2]. assert (h' ≠ h) by congruence. set_solver.
        + intros H. split; [set_solver|]. intros [= ->]. set_solver.
      - split; [done|]. intros _. by split. }
    rewrite !filter_cons. destruct (decide (unseen seen t)); simpl.
    + by rewrite Hf.
    + apply Hf.
  - apply list_filter_iff. intros u. unfold unseen.
    destruct (tag_key u); [|done]. set_solver.
Qed.

Lemma unseen_first_occurrences_app seen l1 l2 :
  filter (unseen seen) (first_occurrences (l1 ++ l2)) =
  filter (unseen seen) (first_occurrences l1) ++
  filter (unseen (seen ∪ names_of l1)) (first_occurrences l2).
Proof.
  revert seen. induction l1 as [|t r IH]; intros seen.
  - rewrite names_of_nil, (right_id_L ∅ (∪)). done.
  - rewrite <- app_comm_cons.
    rewrite (unseen_first_occurrences_cons seen t (r ++ l2)).
    rewrite (unseen_first_occurrences_cons seen t r), IH.
    by rewrite (names_of_cons t r), <- app_assoc, (assoc_L (∪)).
Qed.

Lemma unseen_empty (ts : list value) : filter (unseen ∅) ts = ts.
Proof.
  induction ts as [|t r IH]; [done|]. rewrite filter_cons_True, IH; [done|].
  unfold unseen. destruct (tag_key t); set_solver.
Qed.

Lemma first_occurrences_app l1 l2 :
  first_occurrences (l1 ++ l2) =
  first_occurrences l1 ++ filter (unseen (names_of l1)) (first_occurrences l2).
Proof.
  rewrite <- (unseen_empty (first_occurrences (l1 ++ l2))).
  by rewrite unseen_first_occurrences_app, unseen_empty, (left_id_L ∅ (∪)).
Qed.

(** ** One document *)

Lemma deep_merge_dict_result_dict d src r :
  deep_merge_dict (VDict d) src = OK r → ∃ d', r = VDict d'.
Proof.
  destruct (is_dict src) eqn:E.
  - destruct (deep_merge_dict_total src d E) as [d' ->]. intros [= <-]. eauto.
  - rewrite deep_merge_dict_leaf by done.
    destruct (truthy src); [done|]. intros [= <-]. eauto.
Qed.

Lemma first_occurrences_one t :
  first_occurrences [t] = if tag_key t is Some _ then [t] else [].
Proof. unfold first_occurrences. cbn [foldr]. by destruct (tag_key t). Qed.

Lemma merge_tag_mk_out P c1 c2 c3 c4 T srv seen t st' :
  merge_tag (mk_out P c1 c2 c3 c4 (VList T) srv, seen) t = OK st' →
  st' = (mk_out P c1 c2 c3 c4
           (VList (T ++ filter (unseen seen) (first_occurrences [t]))) srv,
         seen ∪ names_of [t]).
Proof.
  unfold merge_tag. rewrite first_occurrences_one.
  cbn [fst snd].
  assert (tag_key t = match py_get t "name" VNull with
                      | OK name => if truthy name
                                   then match py_hash name with
                                        | OK h => Some h | Raise _ => None end
                                   else None
                      | Raise _ => None end) as Hkey by done.
  destruct (py_get t "name" VNull) as [name|e]; [|done]. cbn [mbind result_bind].
  destruct (truthy name); cbn [mbind result_bind].
  - destruct (py_hash name) as [h|e]; [|done]. cbn [mbind result_bind].
    assert (names_of [t] = {[h]}) as Hn.
    { unfold names_of. simpl. rewrite Hkey. simpl. apply (right_id_L ∅ (∪)). }
    assert (unseen seen t ↔ h ∉ seen) as Hu by (unfold unseen; by rewrite Hkey).
    rewrite Hkey, Hn, filter_cons, filter_nil.
    destruct (decide (h ∈ seen)) as [Hin|Hnin].
    + intros [= <-]. rewrite decide_False by (rewrite Hu; tauto).
      rewrite app_nil_r. f_equal. set_solver.
    + rewrite decide_True by (by rewrite Hu). intros [= <-]. f_equal.
      apply (comm_L (∪)).
  - intros [= <-]. rewrite Hkey. rewrite filter_nil, app_nil_r.
    unfold names_of. simpl. rewrite Hkey. simpl. by rewrite (right_id_L ∅ (∪)).
Qed.

(** The loop over the tag entries of one document. *)
Lemma foldM_merge_tag_mk_out P c1 c2 c3 c4 srv ts : ∀ T seen st',
  foldM merge_tag (mk_out P c1 c2 c3 c4 (VList T) srv, seen) ts = OK st' →
  st' = (mk_out P c1 c2 c3 c4
           (VList (T ++ filter (unseen seen) (first_occurrences ts))) srv,
         seen ∪ names_of ts).
Proof.
  induction ts as [|t r IH]; intros T seen st'; cbn [foldM].
  - intros [= <-]. change (first_occurrences []) with (@nil value).
    by rewrite filter_nil, app_nil_r, names_of_nil, (right_id_L ∅ (∪)).
  - rewrite bind_OK. intros (st1 & H1 & Hr).
    apply merge_tag_mk_out in H1 as ->. apply IH in Hr as ->.
    rewrite (unseen_first_occurrences_cons seen t r), (names_of_cons t r).
    by rewrite <- app_assoc, (assoc_L (∪)).
Qed.

Lemma merge_tags_mk_out P c1 c2 c3 c4 T srv seen spec st' :
  merge_tags (mk_out P c1 c2 c3 c4 (VList T) srv, seen) spec = OK st' →
  st' = (mk_out P c1 c2 c3 c4
           (VList (T ++ filter (unseen seen) (first_occurrences (tag_entries spec))))
           srv,
         seen ∪ names_of (tag_entries spec)).
Proof.
  unfold merge_tags, tag_entries.
  destruct (py_get spec "tags" (VList [])) as [raw|e]; [|done].
  cbn [mbind result_bind].
  destruct (py_iter (py_or raw (VList []))) as [ts|e]; [|done].
  cbn [mbind result_bind]. apply foldM_merge_tag_mk_out.
Qed.

(** A document that merges is a mapping; each container receives its
    section by [deep_merge_dict], and the tags their first occurrences. *)
Lemma merge_doc_mk_out P c1 c2 c3 c4 T srv seen spec st' :
  merge_doc (mk_out (VDict P) (VDict c1) (VDict c2) (VDict c3) (VDict c4)
                    (VList T) srv, seen) spec = OK st' →
  ∃ P' c1' c2' c3' c4',
    is_dict spec = true ∧
    deep_merge_dict (VDict P) (paths_src spec) = OK (VDict P') ∧
    deep_merge_dict (VDict c1) (comp_src spec "schemas") = OK (VDict c1') ∧
    deep_merge_dict (VDict c2) (comp_src spec "securitySchemes") = OK (VDict c2') ∧
    deep_merge_dict (VDict c3) (comp_src spec "parameters") = OK (VDict c3') ∧
    deep_merge_dict (VDict c4) (comp_src spec "responses") = OK (VDict c4') ∧
    st' = (mk_out (VDict P') (VDict c1') (VDict c2') (VDict c3') (VDict c4')
             (VList (T ++ filter (unseen seen)
                             (first_occurrences (tag_entries spec)))) srv,
           seen ∪ names_of (tag_entries spec)).
Proof.
  unfold merge_doc. cbn [fst snd].
  rewrite merge_paths_mk_out.
  destruct spec as [| | | | |d]; try done.
  cbn [py_get mbind result_bind].
  rewrite bind_OK. intros (out1 & H1 & H2).
  apply bind_OK in H1 as (P1 & HP & [= <-]).
  destruct (deep_merge_dict_result_dict _ _ _ HP) as [P' ->].
  rewrite merge_components_mk_out in H2.
  cbn [py_get mbind result_bind] in H2.
  apply bind_OK in H2 as (out2 & H2 & H3).
  unfold comp_src. cbn zeta in H2.
  destruct (py_or (default (VDict []) (dict_get "components" d)) (VDict []))
    as [| | | | |c]; try done.
  cbn [py_get mbind result_bind] in H2.
  apply bind_OK in H2 as (r1 & Hc1 & H2).
  destruct (deep_merge_dict_result_dict _ _ _ Hc1) as [c1' ->].
  apply bind_OK in H2 as (r2 & Hc2 & H2).
  destruct (deep_merge_dict_result_dict _ _ _ Hc2) as [c2' ->].
  apply bind_OK in H2 as (r3 & Hc3 & H2).
  destruct (deep_merge_dict_result_dict _ _ _ Hc3) as [c3' ->].
  apply bind_OK in H2 as (r4 & Hc4 & [= <-]).
  destruct (deep_merge_dict_result_dict _ _ _ Hc4) as [c4' ->].
  apply merge_tags_mk_out in H3 as ->.
  by exists P', c1', c2', c3', c4'.
Qed.

(** ** A whole run *)

Lemma all_tags_snoc w pre p :
  all_tags w (pre ++ [p]) = all_tags w pre ++ from_option tag_entries [] (files w p).
Proof. unfold all_tags. by rewrite map_app, concat_app; simpl; rewrite app_nil_r. Qed.

Lemma run_inv_seed w : run_inv w [] (seed w, ∅).
Proof. rewrite seed_mk_out. by exists [], [], [], [], []. Qed.

Lemma run_inv_step w pre st p st' :
  run_inv w pre st → merge_input w st p = OK st' → run_inv w (pre ++ [p]) st'.
Proof.
  intros (P & c1 & c2 & c3 & c4 & ->). unfold merge_input, load_yaml, run_inv.
  rewrite all_tags_snoc.
  destruct (files w p) as [spec|]; [|done]. cbn [mbind result_bind from_option].
  intros (P' & c1' & c2' & c3' & c4' & _ & _ & _ & _ & _ & _ & ->)%merge_doc_mk_out.
  exists P', c1', c2', c3', c4'.
  by rewrite first_occurrences_app, names_of_app.
Qed.

Lemma merge_specs_run_inv w paths out :
  merge_specs w paths = OK out → ∃ seen, run_inv w paths (out, seen).
Proof.
  unfold merge_specs. rewrite bind_OK. intros ([out' seen] & Hf & [= <-]).
  exists seen.
  apply (foldM_ind (merge_input w) (run_inv w) (run_inv_step w) paths [] _ _
           (run_inv_seed w) Hf).
Qed.

(** ** First occurrences *)

Lemma first_occurrences_sublist ts : first_occurrences ts `sublist_of` ts.
Proof.
  induction ts as [|t r IH]; [done|]. rewrite first_occurrences_cons.
  destruct (tag_key t) as [h|].
  - apply sublist_skip. etrans; [apply sublist_filter|done].
  - by apply sublist_cons.
Qed.

Lemma first_occurrences_named ts :
  Forall (λ t, is_Some (tag_key t)) (first_occurrences ts).
Proof.
  induction ts as [|t r IH]; [constructor|]. rewrite first_occurrences_cons.
  destruct (tag_key t) as [h|] eqn:Ht; [|done].
  constructor; [by rewrite Ht|].
  apply Forall_forall. intros u [_ Hu]%list_elem_of_filter.
  by eapply Forall_forall in IH.
Qed.

Lemma filter_named_excluded h (l : list value) :
  filter (named h) (filter (λ u, ¬ named h u) l) = [].
Proof.
  induction l as [|u r IH]; [done|]. rewrite (filter_cons _ u).
  destruct (decide (¬ named h u)); [|done].
  by rewrite filter_cons_False.
Qed.

(** Of the entries with one name, the output has the first and no other. *)
Lemma first_occurrences_per_name h ts :
  filter (named h) (first_occurrences ts) = take 1 (filter (named h) ts).
Proof.
  induction ts as [|t r IH]; [done|]. rewrite first_occurrences_cons.
  destruct (tag_key t) as [h'|] eqn:Ht.
  - destruct (decide (h' = h)) as [->|Hne].
    + rewrite !filter_cons_True by done. by rewrite filter_named_excluded.
    + assert (¬ named h t) as Hn by (unfold named; congruence).
      rewrite !filter_cons_False by done.
      rewrite list_filter_filter_l; [done|].
      unfold named. intros u -> [= ->]. done.
  - assert (¬ named h t) as Hn by (unfold named; congruence).
    by rewrite filter_cons_False.
Qed.

Lemma elem_of_names_of h ts :
  h ∈ names_of ts ↔ ∃ u, u ∈ ts ∧ tag_key u = Some h.
Proof. unfold names_of. by rewrite elem_of_list_to_set, list_elem_of_omap. Qed.

(** Every name of the output has been seen. *)
Lemma unseen_own_names ts :
  filter (unseen (names_of ts)) (first_occurrences ts) = [].
Proof.
  assert (∀ l : list value, l ⊆ ts →
            Forall (λ t, is_Some (tag_key t)) l →
            filter (unseen (names_of ts)) l = []) as Hall.
  { induction l as [|u r IH]; [done|]. intros Hsub [[h Hu] Hr]%Forall_cons.
    rewrite filter_cons_False; [apply IH; [set_solver|done]|].
    unfold unseen. rewrite Hu. intros Hnin. apply Hnin, elem_of_names_of.
    exists u. split; [set_solver|done]. }
  apply Hall; [|apply first_occurrences_named].
  apply sublist_subseteq, first_occurrences_sublist.
Qed.

(** No two entries of the output share a name. *)
Lemma first_occurrences_NoDup ts : NoDup (omap tag_key (first_occurrences ts)).
Proof.
  induction ts as [|t r IH]; [constructor|]. rewrite first_occurrences_cons.
  destruct (tag_key t) as [h|] eqn:Ht; [|done].
  simpl. rewrite Ht. constructor.
  - rewrite list_elem_of_omap. intros (u & [Hu _]%list_elem_of_filter & Hk).
    by apply Hu.
  - revert IH. generalize (first_occurrences r). intros l.
    induction l as [|u l IHl]; [constructor|].
    rewrite (filter_cons _ u). simpl.
    destruct (tag_key u) as [hu|] eqn:Hu.
    + rewrite NoDup_cons. intros [Hnin Hnd].
      destruct (decide _); [|by auto]. simpl. rewrite Hu. constructor; [|by auto].
      rewrite list_elem_of_omap. intros (x & [_ Hx]%list_elem_of_filter & Hk).
      apply Hnin. rewrite list_elem_of_omap. eauto.
    + intros Hnd. destruct (decide _); [|by auto]. simpl. rewrite Hu. auto.
Qed.

(** ** The store *)

Module HeapFacts.

Import Heap.

Implicit Types (h : heap) (v : value) (x : hval) (f g : gset loc) (l : loc).

Lemma repr_item_eq h kv kx g :
  repr_item h kv kx g ↔ kv.1 = kx.1 ∧ repr h kv.2 kx.2 g.
Proof. done. Qed.

Lemma repr_list h vs x f :
  repr h (VList vs) x f ↔
  ∃ l xs f', x = HRef l ∧ h !! l = Some (HList xs) ∧ (l ∉ f') ∧
             f = {[l]} ∪ f' ∧ sep_all (repr h) vs xs f'.
Proof. done. Qed.

Lemma repr_dict h d x f :
  repr h (VDict d) x f ↔
  ∃ l items f', x = HRef l ∧ h !! l = Some (HDict items) ∧ (l ∉ f') ∧
                f = {[l]} ∪ f' ∧ sep_all (repr_item h) d items f'.
Proof. done. Qed.

Lemma sep_all_impl {A B} (R R' : A → B → gset loc → Prop) xs ys f :
  Forall (λ a, ∀ b g, g ⊆ f → R a b g → R' a b g) xs →
  sep_all R xs ys f → sep_all R' xs ys f.
Proof.
  revert ys f. induction xs as [|a xs IH]; intros [|b ys] f; try done.
  intros [Ha Hxs]%Forall_cons (f1 & f2 & H1 & H2 & Hdis & ->). simpl.
  exists f1, f2. split_and!; [|apply IH|done..].
  - apply Ha; [set_solver|done].
  - eapply Forall_impl; [done|]. simpl. intros a' Ha' b' g Hg.
    apply Ha'. set_solver.
  - done.
Qed.

(** A tree stays where it is when the objects it is built from do. *)
Lemma repr_frame v : ∀ h h' x f,
  (∀ l, l ∈ f → h' !! l = h !! l) → repr h v x f → repr h' v x f.
Proof.
  induction v as [| | | |vs IH|d IH] using value_tree_ind; try done.
  - intros h h' x f Hf (l & xs & f' & -> & Hl & Hnin & -> & Hall)%repr_list.
    apply repr_list. exists l, xs, f'. split_and!; try done.
    + rewrite Hf; [done|set_solver].
    + eapply sep_all_impl; [|done].
      eapply Forall_impl; [done|]. simpl. intros v Hv b g Hg.
      apply Hv. intros l' Hl'. apply Hf. set_solver.
  - intros h h' x f Hf (l & items & f' & -> & Hl & Hnin & -> & Hall)%repr_dict.
    apply repr_dict. exists l, items, f'. split_and!; try done.
    + rewrite Hf; [done|set_solver].
    + eapply sep_all_impl; [|done].
      eapply Forall_impl; [done|]. simpl. intros kv Hv b g Hg [Hk Hr].
      split; [done|]. revert Hr. apply Hv. intros l' Hl'. apply Hf. set_solver.
Qed.

(** The objects of a tree are in the store. *)
Lemma repr_dom v : ∀ h x f, repr h v x f → f ⊆ dom h.
Proof.
  induction v as [| | | |vs IH|d IH] using value_tree_ind;
    try (intros h x f [_ ->]; set_solver).
  - intros h x f (l & xs & f' & -> & Hl & Hnin & -> & Hall)%repr_list.
    assert (f' ⊆ dom h) as Hf'.
    { clear Hnin Hl. revert xs f' Hall.
      induction IH as [|v vs Hv _ IHvs]; intros [|y ys] f'; try done.
      - intros ->. set_solver.
      - intros (f1 & f2 & H1 & H2 & _ & ->).
        apply Hv in H1. apply IHvs in H2. set_solver. }
    apply elem_of_dom_2 in Hl. set_solver.
  - intros h x f (l & items & f' & -> & Hl & Hnin & -> & Hall)%repr_dict.
    assert (f' ⊆ dom h) as Hf'.
    { clear Hnin Hl. revert items f' Hall.
      induction IH as [|kv d Hv _ IHd]; intros [|y ys] f'; try done.
      - intros ->. set_solver.
      - intros (f1 & f2 & [_ H1] & H2 & _ & ->).
        apply Hv in H1. apply IHd in H2. set_solver. }
    apply elem_of_dom_2 in Hl. set_solver.
Qed.

(** The slot of a key in a mapping object: what it holds, and what
    putting something else there gives. *)
Lemma sep_all_slot h k d : ∀ items f,
  sep_all (repr_item h) d items f →
  ∃ fold frest,
    f = fold ∪ frest ∧ fold ## frest ∧
    match dict_get k d, hget k items with
    | Some old, Some xold => repr h old xold fold
    | None, None => fold = ∅
    | _, _ => False
    end ∧
    ∀ h' new xnew fnew,
      repr h' new xnew fnew → fnew ## frest →
      (∀ l, l ∈ frest → h' !! l = h !! l) →
      sep_all (repr_item h') (dict_set k new d) (hset k xnew items)
              (fnew ∪ frest).
Proof.
  induction d as [|[k0 v0] d IH]; intros [|[k1 x1] items] f; try done.
  - simpl. intros ->. exists ∅, ∅. split_and!; [set_solver..|done|].
    intros h' new xnew fnew Hnew _ _. exists fnew, ∅.
    split_and!; [done|done|set_solver|set_solver].
  - intros (f1 & f2 & [Hk H1] & H2 & Hdis & ->). simpl in Hk. subst k1.
    simpl. destruct (String.eqb k k0) eqn:Ek.
    + exists f1, f2. split_and!; [done..|].
      intros h' new xnew fnew Hnew Hfresh Hframe. exists fnew, f2.
      split_and!; [done| |done..].
      eapply sep_all_impl; [|done].
      apply Forall_forall. intros kv _ kx g Hg [? Hr]. split; [done|].
      revert Hr. apply repr_frame. intros l Hl. apply Hframe. set_solver.
    + destruct (IH items f2 H2) as (fold & frest & -> & Hdis2 & Hold & Hset).
      exists fold, (f1 ∪ frest). split_and!; [set_solver..|done|].
      intros h' new xnew fnew Hnew Hfresh Hframe.
      exists f1, (fnew ∪ frest). split_and!.
      * split; [done|]. revert H1. apply repr_frame.
        intros l Hl. apply Hframe. set_solver.
      * apply Hset; [done|set_solver|]. intros l Hl. apply Hframe. set_solver.
      * set_solver.
      * set_solver.
Qed.

Lemma hset_same k x items : hget k items = Some x → hset k x items = items.
Proof.
  induction items as [|[k' x'] r IH]; simpl; [done|].
  destruct (String.eqb k k'); [by intros [= ->]|].
  by intros ?; rewrite IH.
Qed.

Section SepAllDom.
Context {A B : Type} (R : heap → A → B → gset loc → Prop).
Hypothesis R_dom : ∀ h a b g, R h a b g → g ⊆ dom h.

Lemma sep_all_dom h xs : ∀ bs g, sep_all (R h) xs bs g → g ⊆ dom h.
Proof.
  induction xs as [|a xs IH]; intros [|b bs] g; try done.
  - intros ->. set_solver.
  - intros (f1 & f2 & H1 & H2 & _ & ->). apply R_dom in H1. apply IH in H2.
    set_solver.
Qed.
End SepAllDom.

Section SepAllFrame.
Context {A B : Type} (R : heap → A → B → gset loc → Prop).
Hypothesis R_frame : ∀ h h' a b g,
  (∀ l, l ∈ g → h' !! l = h !! l) → R h a b g → R h' a b g.

Lemma sep_all_frame h h' xs bs g :
  (∀ l, l ∈ g → h' !! l = h !! l) → sep_all (R h) xs bs g → sep_all (R h') xs bs g.
Proof.
  intros Hf. apply sep_all_impl. apply Forall_forall. intros a _ b g' Hg.
  apply R_frame. intros l Hl. apply Hf. set_solver.
Qed.
End SepAllFrame.

Section CopyAll.
Context {A B : Type} (R : heap → A → B → gset loc → Prop).
Context (copy1 : B → gmap loc loc * heap → option (B * (gmap loc loc * heap))).
Hypothesis R_frame : ∀ h h' a b g,
  (∀ l, l ∈ g → h' !! l = h !! l) → R h a b g → R h' a b g.
Hypothesis R_dom : ∀ h a b g, R h a b g → g ⊆ dom h.

(** Copying the elements of a container one after the other. *)
Lemma mapM_copies xs :
  Forall (λ a, ∀ b memo h g, R h a b g → dom memo ## g →
            ∃ b' memo' h' g',
              copy1 b (memo, h) = Some (b', (memo', h')) ∧
              R h' a b' g' ∧ copied h memo g h' memo' g') xs →
  ∀ bs memo h g, sep_all (R h) xs bs g → dom memo ## g →
    ∃ bs' memo' h' g',
      mapM copy1 bs (memo, h) = Some (bs', (memo', h')) ∧
      sep_all (R h') xs bs' g' ∧ copied h memo g h' memo' g'.
Proof.
  induction 1 as [|a xs Ha _ IH]; intros [|b bs] memo h g; try done.
  - intros -> _. exists [], memo, h, ∅. split; [done|]. split; [done|].
    unfold copied. split_and!; [set_solver..|done|set_solver].
  - intros (f1 & f2 & H1 & H2 & Hdis & ->) Hmemo.
    destruct (Ha b memo h f1 H1) as (b' & memo1 & h1 & g1 & Hc1 & Hr1 & Hcp1);
      [set_solver|].
    destruct Hcp1 as (Hg1 & Hg1' & Hdom1 & Hfr1 & Hm1).
    pose proof (sep_all_dom R R_dom _ _ _ _ H2) as Hf2.
    destruct (IH bs memo1 h1 f2) as (bs' & memo2 & h2 & g2 & Hc2 & Hr2 & Hcp2).
    { eapply (sep_all_frame R R_frame); [|done]. intros l Hl. apply Hfr1. set_solver. }
    { rewrite Hm1. set_solver. }
    destruct Hcp2 as (Hg2 & Hg2' & Hdom2 & Hfr2 & Hm2).
    exists (b' :: bs'), memo2, h2, (g1 ∪ g2). split_and!.
    + simpl. rewrite Hc1. simpl. rewrite Hc2. done.
    + exists g1, g2. split_and!; [|done|set_solver|done].
      revert Hr1. apply R_frame. intros l Hl. apply Hfr2. set_solver.
    + unfold copied. split_and!; [set_solver..| |].
      * intros l Hl. rewrite Hfr2 by set_solver. by apply Hfr1.
      * rewrite Hm2, Hm1. set_solver.
Qed.
End CopyAll.

Lemma repr_item_frame h h' kv kx g :
  (∀ l, l ∈ g → h' !! l = h !! l) → repr_item h kv kx g → repr_item h' kv kx g.
Proof. intros Hf [? Hr]. split; [done|]. by eapply repr_frame. Qed.

Lemma repr_item_dom h kv kx g : repr_item h kv kx g → g ⊆ dom h.
Proof. intros [_ Hr]. by eapply repr_dom. Qed.

Lemma depth_list vs n :
  (depth (VList vs) ≤ S n)%nat → Forall (λ v, (depth v ≤ n)%nat) vs.
Proof.
  simpl. intros H%le_S_n. induction vs as [|v vs IH]; [constructor|].
  simpl in H. constructor; [lia|]. apply IH. lia.
Qed.

Lemma depth_dict d n :
  (depth (VDict d) ≤ S n)%nat → Forall (λ kv, (depth kv.2 ≤ n)%nat) d.
Proof.
  simpl. intros H%le_S_n. induction d as [|kv d IH]; [constructor|].
  simpl in H. constructor; [lia|]. apply IH. lia.
Qed.

Lemma deepcopy_ref n l memo h :
  memo !! l = None →
  deepcopy (S n) (HRef l) (memo, h) =
  match h !! l with
  | None => None
  | Some (HList xs) =>
      r ← mapM (deepcopy n) xs
            (<[l:=fresh (dom h)]> memo, <[fresh (dom h):=HList []]> h);
      Some (HRef (fresh (dom h)), (r.2.1, <[fresh (dom h):=HList r.1]> r.2.2))
  | Some (HDict items) =>
      r ← mapM (λ kx st, r ← deepcopy n kx.2 st; Some ((kx.1, r.1), r.2)) items
            (<[l:=fresh (dom h)]> memo, <[fresh (dom h):=HDict []]> h);
      Some (HRef (fresh (dom h)), (r.2.1, <[fresh (dom h):=HDict r.1]> r.2.2))
  end.
Proof. intros H. simpl. by rewrite H. Qed.

(** [deepcopy] of a tree: the same tree, made of new objects; nothing
    that was in the store has changed. *)
Lemma deepcopy_copies v : ∀ n x memo h f,
  repr h v x f → (depth v ≤ n)%nat → dom memo ## f →
  ∃ x' memo' h' f',
    deepcopy n x (memo, h) = Some (x', (memo', h')) ∧
    repr h' v x' f' ∧ copied h memo f h' memo' f'.
Proof.
  induction v as [| | | |vs IH|d IH] using value_tree_ind;
    try (intros n x memo h f [-> ->] _ _; eexists _, memo, h, ∅;
         split; [by destruct n|]; split; [done|];
         unfold copied; split_and!; [set_solver..|done|set_solver]).
  - intros n x memo h f (l & xs & f' & -> & Hl & Hnin & -> & Hall)%repr_list Hn Hmemo.
    destruct n as [|n]; [simpl in Hn; lia|].
    apply depth_list in Hn.
    assert (memo !! l = None) as Hml by (apply not_elem_of_dom; set_solver).
    rewrite deepcopy_ref, Hl by done.
    pose proof (is_fresh (dom h)) as Hfresh.
    pose proof (sep_all_dom repr (λ h a b g, repr_dom a h b g) _ _ _ _ Hall) as Hf'.
    destruct (mapM_copies repr (deepcopy n)
                (λ h h' a b g, repr_frame a h h' b g)
                (λ h a b g, repr_dom a h b g) vs) with
      (bs := xs) (memo := <[l:=fresh (dom h)]> memo)
      (h := <[fresh (dom h):=HList []]> h) (g := f')
      as (xs' & memo' & h' & g' & Hc & Hr & Hg1 & Hg2 & Hdom & Hfr & Hm).
    { apply Forall_forall. intros v Hv b memo0 h0 g0 Hr0 Hm0.
      eapply Forall_forall in IH; [|done]. eapply Forall_forall in Hn; [|done].
      by apply IH. }
    { eapply (sep_all_frame repr (λ h h' a b g, repr_frame a h h' b g)); [|done].
      intros l0 Hl0. rewrite lookup_insert_ne; [done|]. set_solver. }
    { rewrite dom_insert_L. set_solver. }
    rewrite Hc. simpl.
    rewrite dom_insert_L in Hg1, Hdom, Hfr.
    eexists _, _, _, ({[fresh (dom h)]} ∪ g'). split; [done|]. split.
    + apply repr_list. eexists _, xs', g'. split_and!; [done| |set_solver|done|].
      * by rewrite lookup_insert_eq.
      * eapply (sep_all_frame repr (λ h h' a b g, repr_frame a h h' b g)); [|done].
        intros l0 Hl0. rewrite lookup_insert_ne; [done|]. set_solver.
    + unfold copied. rewrite dom_insert_L. split_and!; [set_solver..| |].
      * intros l0 Hl0. rewrite lookup_insert_ne by set_solver.
        rewrite Hfr by set_solver. rewrite lookup_insert_ne; [done|set_solver].
      * rewrite Hm, dom_insert_L. set_solver.
  - intros n x memo h f (l & items & f' & -> & Hl & Hnin & -> & Hall)%repr_dict Hn Hmemo.
    destruct n as [|n]; [simpl in Hn; lia|].
    apply depth_dict in Hn.
    assert (memo !! l = None) as Hml by (apply not_elem_of_dom; set_solver).
    rewrite deepcopy_ref, Hl by done.
    pose proof (is_fresh (dom h)) as Hfresh.
    pose proof (sep_all_dom repr_item repr_item_dom _ _ _ _ Hall) as Hf'.
    destruct (mapM_copies repr_item
                (λ kx st, r ← deepcopy n kx.2 st; Some ((kx.1, r.1), r.2))
                repr_item_frame repr_item_dom d) with
      (bs := items) (memo := <[l:=fresh (dom h)]> memo)
      (h := <[fresh (dom h):=HDict []]> h) (g := f')
      as (xs' & memo' & h' & g' & Hc & Hr & Hg1 & Hg2 & Hdom & Hfr & Hm).
    { apply Forall_forall. intros kv Hv [k0 b] memo0 h0 g0 [Hk0 Hr0] Hm0.
      eapply Forall_forall in IH; [|done]. eapply Forall_forall in Hn; [|done].
      simpl in *.
      destruct (IH n b memo0 h0 g0 Hr0 Hn Hm0) as (b' & m' & h0' & g0' & -> & ? & ?).
      simpl. by exists (k0, b'), m', h0', g0'. }
    { eapply (sep_all_frame repr_item repr_item_frame); [|done].
      intros l0 Hl0. rewrite lookup_insert_ne; [done|]. set_solver. }
    { rewrite dom_insert_L. set_solver. }
    rewrite Hc. simpl.
    rewrite dom_insert_L in Hg1, Hdom, Hfr.
    eexists _, _, _, ({[fresh (dom h)]} ∪ g'). split; [done|]. split.
    + apply repr_dict. eexists _, xs', g'. split_and!; [done| |set_solver|done|].
      * by rewrite lookup_insert_eq.
      * eapply (sep_all_frame repr_item repr_item_frame); [|done].
        intros l0 Hl0. rewrite lookup_insert_ne; [done|]. set_solver.
    + unfold copied. rewrite dom_insert_L. split_and!; [set_solver..| |].
      * intros l0 Hl0. rewrite lookup_insert_ne by set_solver.
        rewrite Hfr by set_solver. rewrite lookup_insert_ne; [done|set_solver].
      * rewrite Hm, dom_insert_L. set_solver.
Qed.

Lemma updated_trans h f h1 f1 h2 f2 :
  updated h f h1 f1 → updated h1 f1 h2 f2 → updated h f h2 f2.
Proof.
  intros (Hd1 & Hf1 & Hs1) (Hd2 & Hf2 & Hs2). split_and!.
  - set_solver.
  - intros l Hl Hnin. rewrite Hf2; [by apply Hf1|set_solver|set_solver].
  - set_solver.
Qed.

Lemma updated_refl h f : updated h f h f.
Proof. split_and!; [done|done|set_solver]. Qed.

(** A tree apart from the one updated is still there. *)
Lemma updated_frame h f h' f' v x g :
  updated h f h' f' → repr h v x g → f ## g →
  repr h' v x g ∧ f' ## g.
Proof.
  intros (Hd & Hf & Hs) Hr Hdis. pose proof (repr_dom _ _ _ _ Hr) as Hg. split.
  - revert Hr. apply repr_frame. intros l Hl. apply Hf; set_solver.
  - set_solver.
Qed.

Lemma repr_is_dict h v x f : repr h v x f → is_dict_at h x = is_dict v.
Proof.
  destruct v; try by intros [-> _].
  - intros (l' & xs & f' & -> & Hl & _)%repr_list. simpl. by rewrite Hl.
  - intros (l' & xs & f' & -> & Hl & _)%repr_dict. simpl. by rewrite Hl.
Qed.

(** [dst[k] = deepcopy(v)] puts a copy of the tree under [k], made of new
    objects. *)
Lemma assign_copy_spec n h dc dst fD v x fv k :
  repr h (VDict dc) dst fD → repr h v x fv → fD ## fv → (depth v ≤ n)%nat →
  ∃ h' fD',
    assign_copy n dst k x h = Some (OK h') ∧
    repr h' (VDict (dict_set k (tree_copy v) dc)) dst fD' ∧
    updated h fD h' fD'.
Proof.
  intros (ld & ditems & fd & -> & Hld & Hnin & -> & Hall)%repr_dict Hv Hdis Hn.
  destruct (deepcopy_copies v n x ∅ h fv Hv Hn) as
    (c & memo' & h1 & g' & Hc & Hr1 & Hg1 & Hg2 & Hdom & Hfr & _); [set_solver|].
  unfold assign_copy. rewrite Hc.
  pose proof (elem_of_dom_2 _ _ _ Hld) as Hldd.
  rewrite (Hfr ld Hldd), Hld.
  pose proof (sep_all_dom repr_item repr_item_dom _ _ _ _ Hall) as Hfd.
  destruct (sep_all_slot h k dc ditems fd Hall)
    as (fold & frest & -> & Hdis2 & _ & Hset).
  eexists _, ({[ld]} ∪ (g' ∪ frest)). split; [done|]. split.
  - apply repr_dict. eexists ld, _, (g' ∪ frest).
    split_and!; [done| |set_solver|done|].
    + by rewrite lookup_insert_eq.
    + apply Hset.
      * rewrite deepcopy_eq. revert Hr1. apply repr_frame.
        intros l Hl. rewrite lookup_insert_ne; [done|set_solver].
      * set_solver.
      * intros l Hl. rewrite lookup_insert_ne by set_solver.
        apply Hfr. set_solver.
  - unfold updated. rewrite dom_insert_L. split_and!.
    + set_solver.
    + intros l Hl Hnl. rewrite lookup_insert_ne by set_solver. by apply Hfr.
    + set_solver.
Qed.

Lemma items_at_dict h s src fS :
  repr h (VDict s) src fS →
  ∃ ls sitems fs,
    src = HRef ls ∧ items_at h src = OK sitems ∧ (ls ∉ fs) ∧ fS = {[ls]} ∪ fs ∧
    sep_all (repr_item h) s sitems fs.
Proof.
  intros (ls & sitems & fs & -> & Hls & Hnin & -> & Hall)%repr_dict.
  exists ls, sitems, fs. split_and!; try done.
  unfold items_at. simpl. rewrite Hls.
  destruct sitems as [|kx r]; [|done]. by destruct s.
Qed.

(** The store-level merge does in place what the tree-level merge
    computes: afterwards the destination holds the merged tree, built from
    its old objects and new ones, and no other object has changed. *)
Lemma merge_in_place_gen S : ∀ fuel D dst src h fD fS D',
  is_dict D = true → is_dict S = true →
  repr h D dst fD → repr h S src fS → fD ## fS →
  (depth S ≤ fuel)%nat →
  tree_merge D S = OK D' →
  ∃ h' fD',
    deep_merge_dict fuel dst src h = Some (OK h') ∧
    repr h' D' dst fD' ∧ updated h fD h' fD'.
Proof.
  induction S as [| | | | |s IH] using value_tree_ind; try done.
  intros fuel D dst src h fD fS D' HD _ HrD HrS Hdis Hfuel.
  destruct fuel as [|n]; [simpl in Hfuel; lia|].
  apply depth_dict in Hfuel.
  destruct (items_at_dict _ _ _ _ HrS) as (ls & sitems & fs & -> & Hit & _ & -> & Hall).
  rewrite deep_merge_dict_items. simpl. rewrite Hit. clear Hit.
  assert (fD ## fs) as Hdis' by set_solver. clear Hdis HrS.
  destruct D as [| | | | |dc]; try done. clear HD.
  revert sitems fs dc h fD D' Hall HrD Hdis'.
  induction s as [|[k v] s IHs]; intros [|[k' x] sitems] fs dc h fD D'; try done.
  - intros _ HrD _ [= <-]. exists h, fD. split; [done|]. split; [done|].
    apply updated_refl.
  - apply Forall_cons in IH as [IHv IH]. apply Forall_cons in Hfuel as [Hnv Hn].
    intros (f1 & f2 & [Hk Hv] & Hrest & Hdis12 & ->) HrD Hdis.
    simpl in Hk, Hv, Hnv, IHv. subst k'. cbn [merge_items for_each].
    intros (D1 & (new & Hnew & ->)%merge_entry_rule & Hpure)%bind_OK.
    pose proof (sep_all_dom repr_item repr_item_dom _ _ _ _ Hrest) as Hf2.
    assert (∃ h1 fD1,
              Heap.merge_entry (deep_merge_dict n) n dst (k, x) h = Some (OK h1) ∧
              repr h1 (VDict (dict_set k new dc)) dst fD1 ∧
              updated h fD h1 fD1) as (h1 & fD1 & Hstep & HrD1 & Hup1).
    { pose proof HrD as (ld & ditems & fd & -> & Hld & Hnin & -> & Hdall)%repr_dict.
      destruct (sep_all_slot h k dc ditems fd Hdall)
        as (fold & frest & -> & Hdis2 & Hold & Hset).
      assert (∃ h1 fD1,
                assign_copy n (HRef ld) k x h = Some (OK h1) ∧
                repr h1 (VDict (dict_set k (tree_copy v) dc)) (HRef ld) fD1 ∧
                updated h ({[ld]} ∪ (fold ∪ frest)) h1 fD1) as Hassign.
      { eapply assign_copy_spec; [exact HrD|exact Hv|set_solver|done]. }
      unfold Heap.merge_entry, item_at. cbn [fst snd]. rewrite Hld.
      unfold entry_rule in Hnew.
      destruct (dict_get k dc) as [old|] eqn:Hget,
               (hget k ditems) as [xold|] eqn:Hhget; try done.
      - rewrite (repr_is_dict _ _ _ _ Hold), (repr_is_dict _ _ _ _ Hv).
        destruct old as [| | | | |dk]; try by subst new.
        destruct (is_dict v) eqn:Ev; [|by subst new].
        simpl.
        destruct (IHv n (VDict dk) xold x h fold f1 new)
          as (h1 & fold1 & Hm & Hr1 & Hup); try done; [set_solver|].
        exists h1, ({[ld]} ∪ (fold1 ∪ frest)). split; [done|].
        destruct Hup as (Hd & Hf & Hs).
        pose proof (sep_all_dom repr_item repr_item_dom _ _ _ _ Hdall) as Hfd.
        pose proof (elem_of_dom_2 _ _ _ Hld) as Hldd.
        split.
        + apply repr_dict. exists ld, ditems, (fold1 ∪ frest).
          split_and!; [done| |set_solver|done|].
          * rewrite Hf; [done|done|set_solver].
          * rewrite <- (hset_same k xold ditems Hhget) at 1.
            apply Hset; [done|set_solver|].
            intros l Hl. apply Hf; set_solver.
        + unfold updated. split_and!; [done| |set_solver].
          intros l Hl Hnl. apply Hf; set_solver.
      - by subst new. }
    rewrite Hstep.
    destruct Hup1 as (Hd1 & Hf1 & Hs1).
    destruct (IHs IH Hn sitems f2 (dict_set k new dc) h1 fD1 D')
      as (h' & fD' & Hloop & HrD' & Hup'); try done.
    { eapply (sep_all_frame repr_item repr_item_frame); [|done].
      intros l Hl. apply Hf1; set_solver. }
    { set_solver. }
    exists h', fD'. split; [done|]. split; [done|].
    by eapply updated_trans.
Qed.

(** On mappings: the source is as it was, and shares no object with the
    destination. *)
Lemma merge_in_place (D S D' : dict) h dst src fD fS fuel :
  repr h (VDict D) dst fD → repr h (VDict S) src fS → fD ## fS →
  (depth (VDict S) ≤ fuel)%nat →
  tree_merge (VDict D) (VDict S) = OK (VDict D') →
  ∃ h' fD',
    deep_merge_dict fuel dst src h = Some (OK h') ∧
    repr h' (VDict D') dst fD' ∧
    repr h' (VDict S) src fS ∧
    fD' ## fS ∧
    (∀ l, l ∈ dom h → l ∉ fD → h' !! l = h !! l).
Proof.
  intros HrD HrS Hdis Hfuel Hpure.
  destruct (merge_in_place_gen (VDict S) fuel (VDict D) dst src h fD fS (VDict D'))
    as (h' & fD' & Hm & Hr & Hup); try done.
  exists h', fD'. split; [done|]. split; [done|].
  destruct (updated_frame _ _ _ _ _ _ _ Hup HrS Hdis) as [HrS' Hdis'].
  split; [done|]. split; [done|]. by destruct Hup as (_ & Hf & _).
Qed.

(** ** Shared and recursive objects *)

(** Merging a mapping that holds itself into another that holds itself
    recurses without end. *)
Lemma merge_cycle_diverges (h : heap) (a b : loc) k :
  h !! a = Some (HDict [(k, HRef a)]) →
  h !! b = Some (HDict [(k, HRef b)]) →
  ∀ fuel, Heap.deep_merge_dict fuel (HRef a) (HRef b) h = None.
Proof.
  intros Ha Hb. induction fuel as [|n IH]; [done|].
  cbn [Heap.deep_merge_dict]. unfold items_at, truthy_at. rewrite Hb.
  cbn [for_each]. unfold Heap.merge_entry at 1, item_at. rewrite Ha.
  cbn [fst snd hget]. rewrite String.eqb_refl.
  unfold is_dict_at. rewrite Ha, Hb. cbn [andb]. by rewrite IH.
Qed.

Lemma merge_into_cycle_diverges (h : heap) (d s a b : loc) k k' :
  h !! d = Some (HDict [(k, HRef a)]) →
  h !! s = Some (HDict [(k, HRef b)]) →
  h !! a = Some (HDict [(k', HRef a)]) →
  h !! b = Some (HDict [(k', HRef b)]) →
  ∀ fuel, Heap.deep_merge_dict fuel (HRef d) (HRef s) h = None.
Proof.
  intros Hd Hs Ha Hb [|n]; [done|].
  cbn [Heap.deep_merge_dict]. unfold items_at, truthy_at. rewrite Hs.
  cbn [for_each]. unfold Heap.merge_entry at 1, item_at. rewrite Hd.
  cbn [fst snd hget]. rewrite String.eqb_refl.
  unfold is_dict_at. rewrite Ha, Hb. cbn [andb].
  by rewrite (merge_cycle_diverges h a b k' Ha Hb).
Qed.

End HeapFacts.

(** * The claims *)

(** ** The merge rule (C1) *)

(** C1, as stated for every destination, fails where one object is stored
    under two keys of the destination (as [deepcopy] leaves it when a
    document has [get: &op {...}] and [post: *op]): the source has only
    [get], the merge updates the shared object in place, and the value
    under [post], a key of the destination alone, changes with it. *)
Lemma aliased_key_changed :
  Heap.tree_at 2 AliasSample.store (Heap.HRef 1%positive)
  = Some (VDict AliasSample.dst_tree) ∧
  Heap.tree_at 2 AliasSample.store (Heap.HRef 3%positive)
  = Some (VDict AliasSample.src_tree) ∧
  dict_get "post" AliasSample.src_tree = None ∧
  dict_get "post" AliasSample.dst_tree = Some (VDict [("summary", VStr "s1")]) ∧
  ∃ h' D',
    Heap.deep_merge_dict 2 (Heap.HRef 1%positive) (Heap.HRef 3%positive)
      AliasSample.store = Some (OK h') ∧
    Heap.tree_at 2 h' (Heap.HRef 1%positive) = Some (VDict D') ∧
    dict_get "post" D' = Some (VDict [("summary", VStr "s2")]) ∧
    dict_get "post" D' ≠ dict_get "post" AliasSample.dst_tree.
Proof.
  repeat (split; [reflexivity|]).
  eexists _, _. split; [vm_compute; reflexivity|].
  split; [vm_compute; reflexivity|]. split; [reflexivity|]. discriminate.
Qed.

(** C1, for trees: merging a source mapping [S] (a dictionary: each key
    once) into a destination mapping [D] returns, without raising, a
    mapping [D'] such
    that, for each key [k] of [S] with value [v]: if [D] has a mapping
    under [k] and [v] is a mapping, [D'] has under [k] the deep merge of
    [v] into that mapping; otherwise [D'] has under [k] the deep copy of
    [v], whatever [D] had there; and every key that [S] does not have
    keeps in [D'] the value it has in [D].  On the store, where [D] and
    [S] are trees of objects with no object in common, the merge updates
    the destination in place to [D']; the source is what it was, no other
    object has changed, and destination and source still have no object
    in common: what was copied is independent of the source. *)
Theorem deep_merge_dict_rule (D S : dict) :
  NoDup (keys S) →
  ∃ D',
    deep_merge_dict (VDict D) (VDict S) = OK (VDict D') ∧
    (∀ k v, dict_get k S = Some v →
       match dict_get k D with
       | Some (VDict dk) =>
           if is_dict v
           then ∃ r, deep_merge_dict (VDict dk) v = OK r ∧ dict_get k D' = Some r
           else dict_get k D' = Some (deepcopy v)
       | _ => dict_get k D' = Some (deepcopy v)
       end) ∧
    (∀ k, dict_get k S = None → dict_get k D' = dict_get k D) ∧
    ∀ (h : Heap.heap) dst src (fD fS : gset Heap.loc) fuel,
      Heap.repr h (VDict D) dst fD → Heap.repr h (VDict S) src fS →
      fD ## fS → (Heap.depth (VDict S) ≤ fuel)%nat →
      ∃ h' fD',
        Heap.deep_merge_dict fuel dst src h = Some (OK h') ∧
        Heap.repr h' (VDict D') dst fD' ∧
        Heap.repr h' (VDict S) src fS ∧
        fD' ## fS ∧
        (∀ l, l ∈ dom h → l ∉ fD → h' !! l = h !! l).
Proof.
  intros Hnd.
  destruct (deep_merge_dict_by_key D S Hnd) as (D' & HD' & Hin & Hout).
  exists D'. split_and!; [done..|].
  intros h dst src fD fS fuel HrD HrS Hdis Hfuel.
  by eapply HeapFacts.merge_in_place.
Qed.

Lemma deep_merge_dict_rule_witness :
  NoDup (keys StoreSample.src_tree) ∧
  Heap.repr StoreSample.store (VDict StoreSample.dst_tree)
    (Heap.HRef 1%positive) ({[1%positive]} ∪ (({[2%positive]} ∪ ∅) ∪ (∅ ∪ ∅))) ∧
  Heap.repr StoreSample.store (VDict StoreSample.src_tree)
    (Heap.HRef 3%positive)
    ({[3%positive]} ∪ (({[4%positive]} ∪ ∅) ∪ (({[5%positive]} ∪ ∅) ∪ ∅))) ∧
  ∃ D' h' fD',
    deep_merge_dict (VDict StoreSample.dst_tree) (VDict StoreSample.src_tree)
    = OK (VDict D') ∧
    dict_get "a" D' = Some (VDict [("x", VInt 1); ("y", VInt 3)]) ∧
    dict_get "b" D' = Some (VInt 2) ∧
    dict_get "c" D' = Some (VList [VInt 1]) ∧
    Heap.deep_merge_dict 3 (Heap.HRef 1%positive) (Heap.HRef 3%positive) StoreSample.store
    = Some (OK h') ∧
    Heap.repr h' (VDict D') (Heap.HRef 1%positive) fD' ∧
    fD' ## ({[3%positive]} ∪ (({[4%positive]} ∪ ∅) ∪ (({[5%positive]} ∪ ∅) ∪ ∅))).
Proof.
  assert (NoDup (keys StoreSample.src_tree)) as Hnd
    by (apply (bool_decide_unpack _); vm_compute; exact I).
  assert (Heap.repr StoreSample.store (VDict StoreSample.dst_tree)
            (Heap.HRef 1%positive) ({[1%positive]} ∪ (({[2%positive]} ∪ ∅) ∪ (∅ ∪ ∅))))
    as HrD.
  { exists 1%positive, [("a", Heap.HRef 2%positive); ("b", Heap.HInt 2)],
      (({[2%positive]} ∪ ∅) ∪ (∅ ∪ ∅)).
    split; [done|]. split; [by vm_compute|]. split; [set_solver|].
    split; [done|].
    exists ({[2%positive]} ∪ ∅), (∅ ∪ ∅).
    split; [|split; [|split; [set_solver|done]]].
    - split; [done|].
      exists 2%positive, [("x", Heap.HInt 1)], ∅.
      split; [done|]. split; [by vm_compute|]. split; [set_solver|].
      split; [done|].
      exists ∅, ∅. split; [done|]. split; [done|]. split; [set_solver|done].
    - exists ∅, ∅. split; [done|]. split; [done|]. split; [set_solver|done]. }
  assert (Heap.repr StoreSample.store (VDict StoreSample.src_tree)
            (Heap.HRef 3%positive)
            ({[3%positive]} ∪
             (({[4%positive]} ∪ ∅) ∪ (({[5%positive]} ∪ ∅) ∪ ∅))))
    as HrS.
  { exists 3%positive, [("a", Heap.HRef 4%positive); ("c", Heap.HRef 5%positive)],
      (({[4%positive]} ∪ ∅) ∪ (({[5%positive]} ∪ ∅) ∪ ∅)).
    split; [done|]. split; [by vm_compute|]. split; [set_solver|].
    split; [done|].
    exists ({[4%positive]} ∪ ∅), (({[5%positive]} ∪ ∅) ∪ ∅).
    split; [|split; [|split; [set_solver|done]]].
    - split; [done|].
      exists 4%positive, [("y", Heap.HInt 3)], ∅.
      split; [done|]. split; [by vm_compute|]. split; [set_solver|].
      split; [done|].
      exists ∅, ∅. split; [done|]. split; [done|]. split; [set_solver|done].
    - exists ({[5%positive]} ∪ ∅), ∅.
      split; [|split; [done|split; [set_solver|done]]].
      split; [done|].
      exists 5%positive, [Heap.HInt 1], ∅.
      split; [done|]. split; [by vm_compute|]. split; [set_solver|].
      split; [done|].
      exists ∅, ∅. split; [done|]. split; [done|]. split; [set_solver|done]. }
  split; [exact Hnd|]. split; [exact HrD|]. split; [exact HrS|].
  destruct (deep_merge_dict_rule StoreSample.dst_tree StoreSample.src_tree Hnd)
    as (D' & HD' & Hin & Hout & Hstore).
  destruct (Hstore StoreSample.store _ _ _ _ 3%nat HrD HrS)
    as (h' & fD' & Hrun & HrD' & _ & Hdis & _).
  { set_solver. }
  { vm_compute. lia. }
  exists D', h', fD'.
  pose proof (Hin "a" _ eq_refl) as Ha. pose proof (Hin "c" _ eq_refl) as Hc.
  pose proof (Hout "b" eq_refl) as Hb.
  cbn in Ha, Hb, Hc. destruct Ha as (r & [= <-] & Ha).
  by split_and!.
Defined.

(** ** Tags (C2) *)

(** C2, as stated, fails: an entry whose name is the empty string is the
    first entry seen for that name, the merge succeeds, and the entry is
    not in the merged tags. *)
Lemma tags_empty_name_dropped :
  ∃ out,
    merge_specs Sample.plain ["misc.yaml"] = OK out ∧
    Sample.unnamed_tag ∈ all_tags Sample.plain ["misc.yaml"] ∧
    py_get Sample.unnamed_tag "name" VNull = OK (VStr "") ∧
    dict_get "tags" out = Some (VList []).
Proof.
  eexists. split; [by vm_compute|]. split; [|done].
  vm_compute. left.
Qed.

(** C2, amended: when the inputs merge, the merged tags are the first
    occurrences, by name, among the tag entries of the inputs in input
    order, where a name is a truthy value under [name], compared as a
    member of a Python set.  They are a subsequence of the input entries
    (unmodified entries, in input order); each has a name; for every name
    the output holds the first input entry with that name and no other.
    Entries whose name is missing, null, empty or otherwise falsy have no
    name in this sense and are dropped. *)
Theorem tags_first_occurrences w paths out :
  merge_specs w paths = OK out →
  ∃ T,
    dict_get "tags" out = Some (VList T) ∧
    T = first_occurrences (all_tags w paths) ∧
    T `sublist_of` all_tags w paths ∧
    Forall (λ t, is_Some (tag_key t)) T ∧
    NoDup (omap tag_key T) ∧
    ∀ h, filter (named h) T = take 1 (filter (named h) (all_tags w paths)).
Proof.
  intros (seen & P & c1 & c2 & c3 & c4 & [= -> _])%merge_specs_run_inv.
  exists (first_occurrences (all_tags w paths)). split_and!; [done..| | | |].
  - apply first_occurrences_sublist.
  - apply first_occurrences_named.
  - apply first_occurrences_NoDup.
  - intros h. apply first_occurrences_per_name.
Qed.

Lemma tags_first_occurrences_witness :
  merge_specs Sample.plain ["users.yaml"; "sessions.yaml"] = OK Sample.merged ∧
  ∃ T,
    dict_get "tags" Sample.merged = Some (VList T) ∧
    T = first_occurrences (all_tags Sample.plain ["users.yaml"; "sessions.yaml"]) ∧
    T `sublist_of` all_tags Sample.plain ["users.yaml"; "sessions.yaml"] ∧
    Forall (λ t, is_Some (tag_key t)) T ∧
    NoDup (omap tag_key T) ∧
    ∀ h, filter (named h) T
         = take 1 (filter (named h)
                     (all_tags Sample.plain ["users.yaml"; "sessions.yaml"])).
Proof.
  assert (merge_specs Sample.plain ["users.yaml"; "sessions.yaml"]
          = OK Sample.merged) as H by (vm_compute; reflexivity).
  split; [exact H|].
  exact (tags_first_occurrences Sample.plain _ _ H).
Defined.

(** ** Servers (C3) *)

Lemma dict_get_filter_ne k k' (d : dict) :
  k ≠ k' → dict_get k (filter (λ kv, kv.1 ≠ k') d) = dict_get k d.
Proof.
  intros Hne. induction d as [|[k0 v0] r IH]; [done|].
  rewrite filter_cons. simpl. destruct (decide (k0 ≠ k')) as [Hk|Hk]; simpl.
  - by rewrite IH.
  - apply dec_stable in Hk as ->. apply String.eqb_neq in Hne.
    by rewrite Hne.
Qed.

Lemma py_get_without_servers spec k dflt :
  k ≠ "servers" → py_get (without_servers spec) k dflt = py_get spec k dflt.
Proof.
  intros Hne. destruct spec as [| | | | |d]; try done.
  simpl. by rewrite dict_get_filter_ne.
Qed.

(** [merge_doc] does not look at the [servers] entry of a document. *)
Lemma merge_doc_without_servers st spec :
  merge_doc st (without_servers spec) = merge_doc st spec.
Proof.
  unfold merge_doc, merge_paths, merge_components, merge_tags.
  by rewrite !py_get_without_servers.
Qed.

Lemma foldM_ext {A B} (f g : A → B → result A) l :
  (∀ a x, f a x = g a x) → ∀ a, foldM f a l = foldM g a l.
Proof.
  intros Hfg. induction l as [|x r IH]; intros a; simpl; [done|].
  rewrite Hfg. destruct (g a x); simpl; auto.
Qed.

Lemma dict_get_servers_mk_out P c1 c2 c3 c4 T srv :
  dict_get "servers" (mk_out P c1 c2 c3 c4 T srv) = dict_get "servers" srv.
Proof. done. Qed.

(** C3: the merged output has a [servers] entry exactly when the trimmed
    override is not empty (the variable is set to something other than
    white space), and then it is the one-element sequence with that URL
    and the description "Default".  The trimmed override is the value of
    the variable with the white space taken off its two ends and nothing
    else: what is left neither starts nor ends with a white-space
    character.  The [servers] entries of the input documents are not
    read: taking them away changes nothing. *)
Theorem servers_only_from_override w paths :
  merge_specs (forget_servers w) paths = merge_specs w paths ∧
  (∃ L M R,
     utf8_chars (default "" (environ w "MERGE_DEFAULT_SERVER")) = L ++ M ++ R ∧
     default_server w = join M ∧
     forallb is_space L = true ∧ forallb is_space R = true ∧
     (∀ c, head M = Some c → is_space c = false) ∧
     (∀ c, last M = Some c → is_space c = false)) ∧
  (default_server w = "" ↔
   blank (default "" (environ w "MERGE_DEFAULT_SERVER")) = true) ∧
  ∀ out, merge_specs w paths = OK out →
    dict_get "servers" out =
      if String.eqb (default_server w) ""
      then None
      else Some (VList [VDict [("url", VStr (default_server w));
                               ("description", VStr "Default")]]).
Proof.
  split; [|split; [apply strip_spec|split; [apply strip_blank|]]].
  - unfold merge_specs. f_equal. apply foldM_ext. intros st p.
    unfold merge_input, load_yaml, forget_servers. simpl.
    destruct (files w p) as [spec|]; simpl; [|done].
    apply merge_doc_without_servers.
  - intros out (seen & P & c1 & c2 & c3 & c4 & [= -> _])%merge_specs_run_inv.
    rewrite dict_get_servers_mk_out. unfold servers_of. simpl.
    by destruct (String.eqb (default_server w) "").
Qed.

Lemma servers_only_from_override_witness :
  (merge_specs Sample.plain ["users.yaml"; "sessions.yaml"] = OK Sample.merged ∧
   dict_get "servers" Sample.merged = None) ∧
  environ Sample.overridden "MERGE_DEFAULT_SERVER"
  = Some "  https://api.example.com " ∧
  ∃ out,
    merge_specs Sample.overridden ["users.yaml"; "sessions.yaml"] = OK out ∧
    dict_get "servers" out
    = Some (VList [VDict [("url", VStr "https://api.example.com");
                          ("description", VStr "Default")]]).
Proof.
  assert (merge_specs Sample.plain ["users.yaml"; "sessions.yaml"]
          = OK Sample.merged) as H by (vm_compute; reflexivity).
  split.
  { split; [exact H|].
    exact (proj2 (proj2 (proj2 (servers_only_from_override Sample.plain _))) _ H). }
  split; [reflexivity|].
  destruct (merge_specs Sample.overridden ["users.yaml"; "sessions.yaml"])
    as [out|e] eqn:Ho; [|by vm_compute in Ho].
  exists out. split; [reflexivity|].
  exact (proj2 (proj2 (proj2 (servers_only_from_override Sample.overridden _)))
           out Ho).
Defined.

(** ** Files that do not load (C4) *)

Lemma foldM_app {A B} (f : A → B → result A) l1 l2 a :
  foldM f a (l1 ++ l2) = (a' ← foldM f a l1; foldM f a' l2).
Proof.
  revert a. induction l1 as [|x r IH]; intros a; simpl; [done|].
  destruct (f a x); simpl; auto.
Qed.

(** C4, as stated, fails: with an empty file listed before a missing one
    the run ends on the [AttributeError] of [spec.get], which names no
    file, not on the error of loading the missing file. *)
Lemma missing_file_not_named :
  files Sample.plain "missing.yaml" = None ∧
  main Sample.plain
    ["merge_openapi.py"; "out.yaml"; "empty.yaml"; "missing.yaml"]
  = Outcome 1 [] (Some AttributeError) [] ∧
  ∀ p, uncaught (main Sample.plain
                   ["merge_openapi.py"; "out.yaml"; "empty.yaml"; "missing.yaml"])
       ≠ Some (LoadError p).
Proof. split; [done|]. split; [by vm_compute|]. intros p. by vm_compute. Qed.

(** C4, amended: if an input file does not load (it is missing,
    unreadable or does not parse), the run ends with status 1 on an
    uncaught exception, prints nothing on standard output and writes no
    file.  The exception is the load error of that file when the inputs
    listed before it merge without error, and the exception raised by
    those earlier inputs otherwise. *)
Theorem load_failure_aborts w prog output pre p post :
  files w p = None →
  main w (prog :: output :: pre ++ p :: post) =
    Outcome 1 []
      (Some match merge_specs w pre with
            | OK _ => LoadError p
            | Raise e => e
            end)
      [].
Proof.
  intros Hp. unfold main.
  assert ((length (prog :: output :: pre ++ p :: post) <? 3)%nat = false) as ->.
  { apply Nat.ltb_ge. simpl. rewrite length_app. simpl. lia. }
  change (drop 2 (prog :: output :: pre ++ p :: post)) with (pre ++ p :: post).
  unfold merge_specs. rewrite foldM_app.
  destruct (foldM (merge_input w) (seed w, ∅) pre) as [st|e]; [|done].
  cbn [mbind result_bind foldM].
  assert (merge_input w st p = Raise (LoadError p)) as ->; [|done].
  unfold merge_input, load_yaml. by rewrite Hp.
Qed.

Lemma load_failure_aborts_witness :
  files Sample.plain "missing.yaml" = None ∧
  main Sample.plain
    ["merge_openapi.py"; "out.yaml"; "users.yaml"; "missing.yaml"; "sessions.yaml"]
  = Outcome 1 [] (Some (LoadError "missing.yaml")) [].
Proof.
  split; [reflexivity|].
  exact (load_failure_aborts Sample.plain "merge_openapi.py" "out.yaml"
           ["users.yaml"] "missing.yaml" ["sessions.yaml"] eq_refl).
Defined.

(** ** The command line (C5) *)

(** C5: with fewer than two positional arguments (the program name does
    not count) the run prints the usage line on standard output, exits
    with status 1 and writes no file.  With two or more it does not print
    the usage line: it merges the inputs [argv[2:]], and when the merge
    returns and the output path [argv[1]] can be opened, it writes the
    merged document there, prints the confirmation and exits with status
    0; an exception of the merge ends the run instead. *)
Theorem usage_on_missing_arguments w argv :
  ((length argv - 1 < 2)%nat →
     main w argv = Outcome 1 [usage] None []) ∧
  (∀ prog output inputs, argv = prog :: output :: inputs → inputs ≠ [] →
     (usage ∉ stdout (main w argv)) ∧
     (∀ merged, merge_specs w inputs = OK merged → writable w output = true →
        main w argv =
          Outcome 0
            ["Wrote " +:+ output +:+ " from " +:+ decimal (length inputs)
               +:+ " inputs"]
            None [(output, VDict merged)]) ∧
     (∀ e, merge_specs w inputs = Raise e →
        main w argv = Outcome 1 [] (Some e) [])).
Proof.
  split.
  - intros Hlt. unfold main.
    by rewrite (proj2 (Nat.ltb_lt (length argv) 3)) by lia.
  - intros prog output inputs -> Hne. unfold main.
    destruct inputs as [|i0 inputs]; [done|]. simpl.
    split_and!.
    + destruct (merge_specs w (i0 :: inputs)); simpl; [|apply not_elem_of_nil].
      destruct (writable w output); simpl; [|apply not_elem_of_nil].
      by intros [=]%list_elem_of_singleton.
    + by intros merged -> ->.
    + by intros e ->.
Qed.

Lemma usage_on_missing_arguments_witness :
  main Sample.plain ["merge_openapi.py"; "out.yaml"]
  = Outcome 1 [usage] None [] ∧
  main Sample.plain ["merge_openapi.py"; "out.yaml"; "users.yaml"; "sessions.yaml"]
  = Outcome 0 ["Wrote out.yaml from 2 inputs"] None
      [("out.yaml", VDict Sample.merged)].
Proof.
  split.
  - apply (proj1 (usage_on_missing_arguments Sample.plain
                    ["merge_openapi.py"; "out.yaml"])).
    simpl. lia.
  - destruct (proj2 (usage_on_missing_arguments Sample.plain
                      ["merge_openapi.py"; "out.yaml"; "users.yaml"; "sessions.yaml"])
                "merge_openapi.py" "out.yaml" ["users.yaml"; "sessions.yaml"]
                eq_refl ltac:(discriminate)) as (_ & Hok & _).
    apply Hok; vm_compute; reflexivity.
Defined.

(** ** The same input twice (C6) *)

(** [merge_doc] on an accumulator of the run, for a document that is a
    mapping, as one chain of merges. *)
Lemma merge_doc_unfold P c1 c2 c3 c4 T srv seen d :
  merge_doc (mk_out P c1 c2 c3 c4 T srv, seen) (VDict d) =
  (P' ← deep_merge_dict P (paths_src (VDict d));
   match py_or (default (VDict []) (dict_get "components" d)) (VDict []) with
   | VDict c =>
       c1' ← deep_merge_dict c1 (comp_src (VDict d) "schemas");
       c2' ← deep_merge_dict c2 (comp_src (VDict d) "securitySchemes");
       c3' ← deep_merge_dict c3 (comp_src (VDict d) "parameters");
       c4' ← deep_merge_dict c4 (comp_src (VDict d) "responses");
       merge_tags (mk_out P' c1' c2' c3' c4' T srv, seen) (VDict d)
   | _ => Raise AttributeError
   end).
Proof.
  unfold merge_doc. cbn [fst snd]. rewrite merge_paths_mk_out.
  cbn [py_get mbind result_bind paths_src].
  destruct (deep_merge_dict P _) as [P'|e]; [|done]. cbn [mbind result_bind].
  rewrite merge_components_mk_out. cbn [py_get mbind result_bind].
  unfold comp_src.
  destruct (py_or (default (VDict []) (dict_get "components" d)) (VDict []))
    as [| | | | |c]; try done.
  cbn [py_get mbind result_bind].
  destruct (deep_merge_dict c1 _) as [c1'|e]; [|done]. cbn [mbind result_bind].
  destruct (deep_merge_dict c2 _) as [c2'|e]; [|done]. cbn [mbind result_bind].
  destruct (deep_merge_dict c3 _) as [c3'|e]; [|done]. cbn [mbind result_bind].
  by destruct (deep_merge_dict c4 _) as [c4'|e].
Qed.

Lemma merge_tag_total P c1 c2 c3 c4 T srv seen t st :
  merge_tag (mk_out P c1 c2 c3 c4 (VList T) srv, seen) t = OK st →
  ∀ P' c1' c2' c3' c4' T' srv' seen',
    ∃ st', merge_tag (mk_out P' c1' c2' c3' c4' (VList T') srv', seen') t = OK st'.
Proof.
  unfold merge_tag. cbn [fst snd].
  destruct (py_get t "name" VNull) as [name|e]; [|done]. cbn [mbind result_bind].
  destruct (truthy name); [|eauto].
  destruct (py_hash name) as [h|e]; [|done]. cbn [mbind result_bind].
  intros _ P' c1' c2' c3' c4' T' srv' seen'.
  destruct (decide (h ∈ seen')); eauto.
Qed.

Lemma foldM_merge_tag_total ts : ∀ P c1 c2 c3 c4 T srv seen st,
  foldM merge_tag (mk_out P c1 c2 c3 c4 (VList T) srv, seen) ts = OK st →
  ∀ P' c1' c2' c3' c4' T' srv' seen',
    ∃ st', foldM merge_tag (mk_out P' c1' c2' c3' c4' (VList T') srv', seen') ts
           = OK st'.
Proof.
  induction ts as [|t r IH]; intros P c1 c2 c3 c4 T srv seen st; cbn [foldM].
  - eauto.
  - rewrite bind_OK. intros (st1 & H1 & Hr) P' c1' c2' c3' c4' T' srv' seen'.
    destruct (merge_tag_total _ _ _ _ _ _ _ _ _ _ H1 P' c1' c2' c3' c4' T' srv' seen')
      as [st1' H1'].
    rewrite H1'. cbn [mbind result_bind].
    pose proof (merge_tag_mk_out _ _ _ _ _ _ _ _ _ _ H1) as ->.
    pose proof (merge_tag_mk_out _ _ _ _ _ _ _ _ _ _ H1') as ->.
    eapply IH, Hr.
Qed.

Lemma unseen_all_seen seen ts :
  names_of ts ⊆ seen → filter (unseen seen) (first_occurrences ts) = [].
Proof.
  intros Hsub.
  assert (∀ l : list value, l ⊆ ts →
            Forall (λ t, is_Some (tag_key t)) l →
            filter (unseen seen) l = []) as Hall.
  { induction l as [|u r IH]; [done|]. intros Hl [[h Hu] Hr]%Forall_cons.
    rewrite filter_cons_False; [apply IH; [set_solver|done]|].
    unfold unseen. rewrite Hu. intros Hnin. apply Hnin, Hsub, elem_of_names_of.
    exists u. split; [set_solver|done]. }
  apply Hall; [|apply first_occurrences_named].
  apply sublist_subseteq, first_occurrences_sublist.
Qed.

(** Once the names of a document are in the set, its tags add nothing. *)
Lemma merge_tags_again P c1 c2 c3 c4 T srv seen spec st :
  merge_tags (mk_out P c1 c2 c3 c4 (VList T) srv, seen) spec = OK st →
  ∀ P' c1' c2' c3' c4' T' srv' seen',
    names_of (tag_entries spec) ⊆ seen' →
    merge_tags (mk_out P' c1' c2' c3' c4' (VList T') srv', seen') spec
    = OK (mk_out P' c1' c2' c3' c4' (VList T') srv', seen').
Proof.
  intros H P' c1' c2' c3' c4' T' srv' seen' Hsub.
  assert (∃ st', merge_tags (mk_out P' c1' c2' c3' c4' (VList T') srv', seen') spec
                 = OK st') as [st' H'].
  { revert H. unfold merge_tags.
    destruct (py_get spec "tags" (VList [])) as [raw|e]; [|done].
    cbn [mbind result_bind].
    destruct (py_iter (py_or raw (VList []))) as [ts|e]; [|done].
    cbn [mbind result_bind]. intros H. by eapply foldM_merge_tag_total. }
  rewrite H'. apply merge_tags_mk_out in H' as ->.
  rewrite unseen_all_seen by done. rewrite app_nil_r.
  do 2 f_equal. set_solver.
Qed.

Lemma wf_empty : wf (VDict []).
Proof. split; [constructor|done]. Qed.

Lemma wf_paths_src spec : wf spec → wf (paths_src spec).
Proof.
  destruct spec as [| | | | |d]; try (intros _; apply wf_empty).
  intros Hwf. simpl.
  destruct (dict_get "paths" d) as [v|] eqn:E; [|apply wf_empty].
  by eapply wf_dict_get.
Qed.

Lemma wf_comp_src spec key : wf spec → wf (comp_src spec key).
Proof.
  destruct spec as [| | | | |d]; try (intros _; apply wf_empty).
  intros Hwf. unfold comp_src.
  assert (wf (py_or (default (VDict []) (dict_get "components" d)) (VDict [])))
    as Hc.
  { unfold py_or. destruct (truthy _); [|apply wf_empty].
    destruct (dict_get "components" d) as [v|] eqn:E; [|apply wf_empty].
    by eapply wf_dict_get. }
  destruct (py_or (default (VDict []) (dict_get "components" d)) (VDict []))
    as [| | | | |c]; try apply wf_empty.
  unfold py_or. destruct (truthy _); [|apply wf_empty].
  destruct (dict_get key c) as [v|] eqn:E; [|apply wf_empty].
  by eapply wf_dict_get.
Qed.

(** Merging a document a second time, right after the first, changes
    neither the accumulator nor the set of names. *)
Lemma merge_doc_again P c1 c2 c3 c4 T srv seen spec st :
  wf spec →
  merge_doc (mk_out P c1 c2 c3 c4 (VList T) srv, seen) spec = OK st →
  merge_doc st spec = OK st.
Proof.
  intros Hwf. destruct spec as [| | | | |d]; try done.
  rewrite merge_doc_unfold.
  pose proof (wf_paths_src _ Hwf) as Hwp.
  pose proof (wf_comp_src _ "schemas" Hwf) as Hw1.
  pose proof (wf_comp_src _ "securitySchemes" Hwf) as Hw2.
  pose proof (wf_comp_src _ "parameters" Hwf) as Hw3.
  pose proof (wf_comp_src _ "responses" Hwf) as Hw4.
  intros (P' & HP & H)%bind_OK.
  destruct (py_or (default (VDict []) (dict_get "components" d)) (VDict []))
    as [| | | | |c] eqn:Ec; try done.
  apply bind_OK in H as (c1' & H1 & H).
  apply bind_OK in H as (c2' & H2 & H).
  apply bind_OK in H as (c3' & H3 & H).
  apply bind_OK in H as (c4' & H4 & H).
  pose proof (merge_tags_mk_out _ _ _ _ _ _ _ _ _ _ H) as ->.
  rewrite merge_doc_unfold, Ec.
  rewrite (deep_merge_dict_again _ Hwp _ _ HP). cbn [mbind result_bind].
  rewrite (deep_merge_dict_again _ Hw1 _ _ H1). cbn [mbind result_bind].
  rewrite (deep_merge_dict_again _ Hw2 _ _ H2). cbn [mbind result_bind].
  rewrite (deep_merge_dict_again _ Hw3 _ _ H3). cbn [mbind result_bind].
  rewrite (deep_merge_dict_again _ Hw4 _ _ H4). cbn [mbind result_bind].
  eapply merge_tags_again; [exact H|]. set_solver.
Qed.

(** C6, as stated for every document, fails for a document with a
    recursive anchor ([paths: {/n: &n {child: *n}}]): merging its [paths]
    into the empty [out['paths']] returns, [deepcopy] having copied the
    cycle; merging the [paths] of the second load into what the first
    left recurses on the two cycles without end, whatever the depth of
    recursion allowed (Python stops it with a RecursionError). *)
Lemma recursive_input_twice :
  ∃ h1,
    Heap.merge_all 3 (Heap.HRef 1%positive) [Heap.HRef 2%positive]
      CycleSample.store = Some (OK h1) ∧
    (∀ fuel, Heap.deep_merge_dict fuel (Heap.HRef 1%positive)
               (Heap.HRef 4%positive) h1 = None) ∧
    Heap.merge_all 1000 (Heap.HRef 1%positive)
      [Heap.HRef 2%positive; Heap.HRef 4%positive] CycleSample.store = None.
Proof.
  eexists. split; [vm_compute; reflexivity|]. split; [|vm_compute; reflexivity].
  apply (HeapFacts.merge_into_cycle_diverges _ 1 4 6 5 "/n" "child")%positive;
    reflexivity.
Qed.

(** C6: listing an input twice in a row gives what listing it once gives,
    the same merged document or the same exception.  The document, if the
    file loads, is a tree of Python dictionaries, which hold each key
    once: no object is stored in two places, none contains itself. *)
Theorem merge_twice_same w p :
  (∀ spec, files w p = Some spec → wf spec) →
  merge_specs w [p; p] = merge_specs w [p].
Proof.
  intros Hwf. unfold merge_specs. cbn [foldM].
  assert (∀ st, merge_input w st p =
                match files w p with
                | Some spec => merge_doc st spec
                | None => Raise (LoadError p)
                end) as Hin.
  { intros st. unfold merge_input, load_yaml. by destruct (files w p). }
  rewrite (Hin (seed w, ∅)).
  destruct (files w p) as [spec|] eqn:Hp; [|done].
  specialize (Hwf spec eq_refl).
  destruct (merge_doc (seed w, ∅) spec) as [st|e] eqn:Hm; [|done].
  cbn [mbind result_bind]. rewrite Hin.
  rewrite seed_mk_out in Hm.
  by rewrite (merge_doc_again _ _ _ _ _ _ _ _ _ _ Hwf Hm).
Qed.

Lemma wf_b_wf v : wf_b v = true → wf v.
Proof.
  induction v as [| | | |l IH|d IH] using value_tree_ind; try done.
  - simpl. intros Hl. apply wf_list.
    induction IH as [|x r Hx _ IHr]; [constructor|].
    simpl in Hl. apply andb_prop in Hl as [? ?]. constructor; auto.
  - simpl. intros [Hnd Hd]%andb_prop. apply wf_dict.
    split; [by apply bool_decide_eq_true in Hnd|].
    clear Hnd. induction IH as [|kv r Hx _ IHr]; [constructor|].
    simpl in Hd. apply andb_prop in Hd as [? ?]. constructor; auto.
Qed.

Lemma merge_twice_same_witness :
  (∀ spec, files Sample.plain "users.yaml" = Some spec → wf spec) ∧
  merge_specs Sample.plain ["users.yaml"; "users.yaml"]
  = merge_specs Sample.plain ["users.yaml"].
Proof.
  assert (∀ spec, files Sample.plain "users.yaml" = Some spec → wf spec) as H.
  { intros spec [= <-]. apply wf_b_wf. vm_compute. reflexivity. }
  split; [exact H|]. exact (merge_twice_same Sample.plain "users.yaml" H).
Defined.

(** ** Precedence (C7) *)

Lemma at_path_empty_dict p : p ≠ [] → at_path p (VDict []) = None.
Proof. by destruct p. Qed.

Lemma at_path_falsy p v : p ≠ [] → truthy v = false → at_path p v = None.
Proof. destruct p; [done|]. intros _. by destruct v as [| | | | |[|kv r]]. Qed.

Lemma at_path_py_or p v : p ≠ [] → at_path p (py_or v (VDict [])) = at_path p v.
Proof.
  intros Hp. unfold py_or. destruct (truthy v) eqn:E; [done|].
  by rewrite at_path_empty_dict, at_path_falsy.
Qed.

Lemma at_path_default p k d :
  p ≠ [] → at_path p (default (VDict []) (dict_get k d)) = at_path (k :: p) (VDict d).
Proof.
  intros Hp. simpl. destruct (dict_get k d); [done|]. by apply at_path_empty_dict.
Qed.

Lemma at_path_paths_src p d :
  p ≠ [] → at_path ("paths" :: p) (VDict d) = at_path p (paths_src (VDict d)).
Proof. intros Hp. unfold paths_src. by rewrite at_path_default. Qed.

Lemma at_path_comp_src key p d :
  p ≠ [] →
  at_path ("components" :: key :: p) (VDict d) = at_path p (comp_src (VDict d) key).
Proof.
  intros Hp. unfold comp_src.
  rewrite <- (at_path_default (key :: p)) by done.
  rewrite <- (at_path_py_or (key :: p)) by done.
  destruct (py_or (default (VDict []) (dict_get "components" d)) (VDict []))
    as [| | | | |c]; try by rewrite at_path_empty_dict.
  by rewrite at_path_py_or, at_path_default.
Qed.

(** What a container holds after the first document is what the document
    has there. *)
Lemma first_merge_at_path src C p vd :
  wf src → p ≠ [] →
  deep_merge_dict (VDict []) src = OK (VDict C) →
  at_path p (VDict C) = Some vd → at_path p src = Some vd.
Proof.
  intros Hwf Hp. destruct (is_dict src) eqn:E.
  - destruct src as [| | | | |s]; try done.
    rewrite deep_merge_dict_into_empty by by apply wf_dict in Hwf as [? _].
    by intros [= <-].
  - rewrite deep_merge_dict_leaf by done. destruct (truthy src); [done|].
    intros [= <-]. by rewrite at_path_empty_dict.
Qed.

(** In a container that received [srcA] and then [srcB], a key path of
    [srcB] holds the value of [srcB], unless both documents have a mapping
    there (which are merged). *)
Lemma container_last_wins srcA srcB C1 C2 p vb :
  wf srcA → wf srcB → p ≠ [] →
  deep_merge_dict (VDict []) srcA = OK (VDict C1) →
  deep_merge_dict (VDict C1) srcB = OK (VDict C2) →
  at_path p srcB = Some vb →
  (is_dict vb = true → ∀ va, at_path p srcA = Some va → is_dict va = false) →
  at_path p (VDict C2) = Some vb.
Proof.
  intros HwA HwB Hp HA HB Hvb Hcond.
  destruct srcB as [| | | | |sB]; try by destruct p.
  apply (deep_merge_dict_path p C1 sB C2 vb); try done.
  intros Hd vd Hvd. apply (Hcond Hd).
  by eapply first_merge_at_path.
Qed.

(** The source of a container in a document, by section. *)
Lemma later_input_wins w a b A B sec p vb out :
  files w a = Some A → files w b = Some B → wf A → wf B →
  sec ∈ merged_sections → p ≠ [] →
  at_path (sec ++ p) B = Some vb →
  (is_dict vb = true → ∀ va, at_path (sec ++ p) A = Some va → is_dict va = false) →
  merge_specs w [a; b] = OK out →
  at_path (sec ++ p) (VDict out) = Some vb.
Proof.
  intros Ha Hb HwA HwB Hsec Hp HvB Hcond.
  unfold merge_specs. cbn [foldM]. unfold merge_input, load_yaml.
  rewrite Ha, Hb. cbn [mbind result_bind]. rewrite seed_mk_out.
  intros (st2 & (st1 & H1 & H2)%bind_OK & [= <-])%bind_OK.
  apply merge_doc_mk_out in H1
    as (P1 & x1 & y1 & z1 & u1 & HdA & HP1 & Hx1 & Hy1 & Hz1 & Hu1 & ->).
  apply bind_OK in H2 as (st2' & H2 & [= <-]).
  apply merge_doc_mk_out in H2
    as (P2 & x2 & y2 & z2 & u2 & HdB & HP2 & Hx2 & Hy2 & Hz2 & Hu2 & ->).
  destruct A as [| | | | |dA]; try done. destruct B as [| | | | |dB]; try done.
  cbn [fst]. unfold merged_sections in Hsec.
  rewrite !elem_of_cons, elem_of_nil in Hsec.
  destruct Hsec as [-> | [-> | [-> | [-> | [-> | []]]]]]; cbn [app] in *.
  - rewrite at_path_paths_src in HvB, Hcond by done.
    apply (container_last_wins (paths_src (VDict dA)) (paths_src (VDict dB)) P1 P2);
      auto using wf_paths_src.
  - rewrite at_path_comp_src in HvB, Hcond by done.
    apply (container_last_wins (comp_src (VDict dA) "schemas")
             (comp_src (VDict dB) "schemas") x1 x2); auto using wf_comp_src.
  - rewrite at_path_comp_src in HvB, Hcond by done.
    apply (container_last_wins (comp_src (VDict dA) "securitySchemes")
             (comp_src (VDict dB) "securitySchemes") y1 y2); auto using wf_comp_src.
  - rewrite at_path_comp_src in HvB, Hcond by done.
    apply (container_last_wins (comp_src (VDict dA) "parameters")
             (comp_src (VDict dB) "parameters") z1 z2); auto using wf_comp_src.
  - rewrite at_path_comp_src in HvB, Hcond by done.
    apply (container_last_wins (comp_src (VDict dA) "responses")
             (comp_src (VDict dB) "responses") u1 u2); auto using wf_comp_src.
Qed.

(** C7, as stated for every two inputs, fails where the first input has one
    object under two keys ([get: &op {summary: s1}] and [post: *op]): its
    copy in the accumulator shares the object too, the second input
    merges [post] and then [get] into it, and [post] ends with the
    summary the second input gives for [get], not the one it gives for
    [post]. *)
Lemma aliased_input_last_loses :
  Heap.tree_at 3 AliasSample.inputs (Heap.HRef 2%positive)
  = Some AliasSample.first_paths ∧
  Heap.tree_at 3 AliasSample.inputs (Heap.HRef 5%positive)
  = Some AliasSample.second_paths ∧
  at_path ["/x"; "post"; "summary"] AliasSample.first_paths = Some (VStr "s1") ∧
  at_path ["/x"; "post"; "summary"] AliasSample.second_paths = Some (VStr "s2") ∧
  ∃ h' out,
    Heap.merge_all 4 (Heap.HRef 1%positive)
      [Heap.HRef 2%positive; Heap.HRef 5%positive] AliasSample.inputs
    = Some (OK h') ∧
    Heap.tree_at 3 h' (Heap.HRef 1%positive) = Some out ∧
    at_path ["/x"; "post"; "summary"] out = Some (VStr "s3").
Proof.
  repeat (split; [reflexivity|]).
  eexists _, _. split; [vm_compute; reflexivity|].
  split; [vm_compute; reflexivity|]. reflexivity.
Qed.

(** C7: for two documents that are trees (each mapping holds a key once,
    no object is stored in two places) and that both have a value at a key
    path below [paths] or below one of the four component containers, not
    a mapping in both (mappings are merged key by key), the merge of
    [a; b] has the value of [b] there and the merge of [b; a] the value
    of [a]. *)
Theorem last_input_wins w a b A B sec p va vb out_ab out_ba :
  files w a = Some A → files w b = Some B → wf A → wf B →
  sec ∈ merged_sections → p ≠ [] →
  at_path (sec ++ p) A = Some va →
  at_path (sec ++ p) B = Some vb →
  is_dict va && is_dict vb = false →
  merge_specs w [a; b] = OK out_ab →
  merge_specs w [b; a] = OK out_ba →
  at_path (sec ++ p) (VDict out_ab) = Some vb ∧
  at_path (sec ++ p) (VDict out_ba) = Some va.
Proof.
  intros Ha Hb HwA HwB Hsec Hp HvA HvB Hleaf Hab Hba. split.
  - apply (later_input_wins w a b A B); try done.
    intros Hd va' Hva'. rewrite HvA in Hva'. injection Hva' as <-.
    rewrite Hd in Hleaf. by destruct (is_dict va).
  - apply (later_input_wins w b a B A); try done.
    intros Hd vb' Hvb'. rewrite HvB in Hvb'. injection Hvb' as <-.
    rewrite Hd in Hleaf. by destruct (is_dict vb).
Qed.

Lemma last_input_wins_witness :
  merge_specs Sample.plain ["users.yaml"; "sessions.yaml"] = OK Sample.merged ∧
  merge_specs Sample.plain ["sessions.yaml"; "users.yaml"]
  = OK Sample.merged_reversed ∧
  at_path ["paths"; "/x"; "get"; "summary"] (VDict Sample.merged)
  = Some (VStr "from sessions") ∧
  at_path ["paths"; "/x"; "get"; "summary"] (VDict Sample.merged_reversed)
  = Some (VStr "from users").
Proof.
  assert (merge_specs Sample.plain ["users.yaml"; "sessions.yaml"]
          = OK Sample.merged) as Hab by (vm_compute; reflexivity).
  assert (merge_specs Sample.plain ["sessions.yaml"; "users.yaml"]
          = OK Sample.merged_reversed) as Hba by (vm_compute; reflexivity).
  split; [exact Hab|]. split; [exact Hba|].
  apply (last_input_wins Sample.plain "users.yaml" "sessions.yaml"
           Sample.users Sample.sessions ["paths"] ["/x"; "get"; "summary"]
           (VStr "from users") (VStr "from sessions")).
  - reflexivity.
  - reflexivity.
  - apply wf_b_wf. vm_compute. reflexivity.
  - apply wf_b_wf. vm_compute. reflexivity.
  - left.
  - discriminate.
  - reflexivity.
  - reflexivity.
  - reflexivity.
  - exact Hab.
  - exact Hba.
Defined.

(** ** Key order (C8) *)

Lemma keys_mk_out P c1 c2 c3 c4 T srv :
  keys (mk_out P c1 c2 c3 c4 T srv) = seeded_keys ++ keys srv.
Proof. done. Qed.

Lemma safe_dump_unsorted data : safe_dump data false = data.
Proof. done. Qed.

Lemma written_main w argv path doc :
  (path, doc) ∈ written (main w argv) →
  path = nth 1 argv "" ∧
  ∃ out, merge_specs w (drop 2 argv) = OK out ∧ doc = VDict out.
Proof.
  unfold main. destruct (_ <? _)%nat; [by intros ?%elem_of_nil|].
  destruct (merge_specs w (drop 2 argv)) as [out|e]; [|by intros ?%elem_of_nil].
  destruct (writable w _); [|by intros ?%elem_of_nil].
  simpl. intros [= -> ->]%list_elem_of_singleton. eauto.
Qed.

(** C8, as stated, fails: with the override set, [servers] is the last
    key of the written document, after [openapi], [info], [paths],
    [components] and [tags]. *)
Lemma servers_key_not_first :
  ∃ out,
    written (main Sample.overridden ["merge_openapi.py"; "out.yaml"; "tags.yaml"])
      = [("out.yaml", VDict out)] ∧
    keys out = ["openapi"; "info"; "paths"; "components"; "tags"; "servers"] ∧
    head (keys out) ≠ Some "servers".
Proof. eexists. split; [by vm_compute|]. by split. Qed.

(** C8, amended: the written document is the accumulator as [merge_specs]
    returns it, mappings in insertion order and not sorted, and its keys
    are [openapi], [info], [paths], [components], [tags], followed by
    [servers] when the override is set: [servers] comes last. *)
Theorem written_keys_in_insertion_order w argv path doc :
  (path, doc) ∈ written (main w argv) →
  ∃ out,
    merge_specs w (drop 2 argv) = OK out ∧
    doc = VDict out ∧
    keys out = ["openapi"; "info"; "paths"; "components"; "tags"] ++
               (if String.eqb (default_server w) "" then [] else ["servers"]).
Proof.
  intros [_ (out & Hm & ->)]%written_main. exists out. split; [done|].
  split; [done|].
  apply merge_specs_run_inv in Hm as (seen & P & c1 & c2 & c3 & c4 & [= -> _]).
  rewrite keys_mk_out. unfold servers_of, seeded_keys. simpl.
  by destruct (String.eqb (default_server w) "").
Qed.

Lemma written_keys_in_insertion_order_witness :
  ∃ out,
    merge_specs Sample.overridden ["tags.yaml"] = OK out ∧
    keys out = ["openapi"; "info"; "paths"; "components"; "tags"; "servers"].
Proof.
  destruct (written_keys_in_insertion_order Sample.overridden
              ["merge_openapi.py"; "out.yaml"; "tags.yaml"] "out.yaml"
              (VDict (mk_out (VDict []) (VDict []) (VDict []) (VDict []) (VDict [])
                        (VList [VDict [("name", VStr "c")]])
                        [("servers", servers_entry "https://api.example.com")])))
    as (out & Hm & _ & Hk).
  { vm_compute. left. }
  exists out. split; [exact Hm|]. exact Hk.
Defined.

(** ** The shape of the accumulator (C9) *)

Lemma shaped_keys srv out :
  shaped srv out → keys out = seeded_keys ++ keys srv.
Proof. intros []. apply keys_mk_out. Qed.

Lemma shaped_components srv out :
  shaped srv out →
  ∃ c, dict_get "components" out = Some (VDict c) ∧
       keys c = component_keys ∧ Forall (λ kv, is_dict kv.2 = true) c.
Proof. intros []. eexists. split; [done|]. split; [done|]. by repeat constructor. Qed.

Lemma merge_paths_shaped srv out spec out' :
  shaped srv out → merge_paths out spec = OK out' → shaped srv out'.
Proof.
  intros [P c1 c2 c3 c4 T]. rewrite merge_paths_mk_out.
  intros (src & _ & (P' & HP & [= <-])%bind_OK)%bind_OK.
  destruct (deep_merge_dict_result_dict _ _ _ HP) as [P'' ->]. constructor.
Qed.

Lemma merge_component_shaped srv comps out key out' :
  shaped srv out → key ∈ component_keys →
  merge_component comps out key = OK out' → shaped srv out'.
Proof.
  intros [P c1 c2 c3 c4 T] Hkey.
  destruct (merge_component_mk_out comps (VDict P) (VDict c1) (VDict c2)
              (VDict c3) (VDict c4) (VList T) srv) as (H1 & H2 & H3 & H4).
  unfold component_keys in Hkey.
  rewrite !elem_of_cons, elem_of_nil in Hkey.
  destruct Hkey as [-> | [-> | [-> | [-> | []]]]].
  - rewrite H1. intros (s & _ & (c & Hc & [= <-])%bind_OK)%bind_OK.
    destruct (deep_merge_dict_result_dict _ _ _ Hc) as [c' ->]. constructor.
  - rewrite H2. intros (s & _ & (c & Hc & [= <-])%bind_OK)%bind_OK.
    destruct (deep_merge_dict_result_dict _ _ _ Hc) as [c' ->]. constructor.
  - rewrite H3. intros (s & _ & (c & Hc & [= <-])%bind_OK)%bind_OK.
    destruct (deep_merge_dict_result_dict _ _ _ Hc) as [c' ->]. constructor.
  - rewrite H4. intros (s & _ & (c & Hc & [= <-])%bind_OK)%bind_OK.
    destruct (deep_merge_dict_result_dict _ _ _ Hc) as [c' ->]. constructor.
Qed.

Lemma merge_tag_shaped srv out seen t st' :
  shaped srv out → merge_tag (out, seen) t = OK st' → shaped srv st'.1.
Proof. intros [P c1 c2 c3 c4 T] ->%merge_tag_mk_out. constructor. Qed.

(** C9: the seed has the shape: the version marker, the info block, a
    mapping for the paths, the components mapping with exactly the four
    containers, each a mapping, a sequence for the tags, and after them
    the servers entry if there is one.  Every merge step that completes
    (the merge of the paths, of one component container, of one tag
    entry, and of a whole document) takes an accumulator of that shape to
    an accumulator of that shape, with the same entries after [tags]; the
    top-level keys and the four component keys stay what they were. *)
Theorem accumulator_shape_invariant w :
  shaped (servers_of w) (seed w) ∧
  ∀ srv out, shaped srv out →
    (keys out = ["openapi"; "info"; "paths"; "components"; "tags"] ++ keys srv ∧
     ∃ c, dict_get "components" out = Some (VDict c) ∧
          keys c = ["schemas"; "securitySchemes"; "parameters"; "responses"] ∧
          Forall (λ kv, is_dict kv.2 = true) c) ∧
    (∀ spec out', merge_paths out spec = OK out' → shaped srv out') ∧
    (∀ comps key out', key ∈ component_keys →
       merge_component comps out key = OK out' → shaped srv out') ∧
    (∀ seen t out' seen',
       merge_tag (out, seen) t = OK (out', seen') → shaped srv out') ∧
    (∀ seen spec out' seen',
       merge_doc (out, seen) spec = OK (out', seen') →
       shaped srv out' ∧ keys out' = keys out).
Proof.
  split; [rewrite seed_mk_out; constructor|].
  intros srv out Hs. split_and!.
  - by apply shaped_keys.
  - by apply (shaped_components srv).
  - intros spec out'. by apply merge_paths_shaped.
  - intros comps key out'. by apply merge_component_shaped.
  - intros seen t out' seen' H. by apply (merge_tag_shaped srv out seen t _ Hs H).
  - intros seen spec out' seen'. destruct Hs as [P c1 c2 c3 c4 T].
    intros (P' & c1' & c2' & c3' & c4' & _ & _ & _ & _ & _ & _ & [= -> _])%merge_doc_mk_out.
    split; [constructor|done].
Qed.

Lemma accumulator_shape_invariant_witness :
  shaped (servers_of Sample.overridden) (seed Sample.overridden) ∧
  ∃ st, merge_doc (seed Sample.overridden, ∅) Sample.users = OK st ∧
        shaped (servers_of Sample.overridden) st.1 ∧
        keys st.1 = keys (seed Sample.overridden).
Proof.
  destruct (accumulator_shape_invariant Sample.overridden) as [Hseed Hstep].
  split; [exact Hseed|].
  destruct (merge_doc (seed Sample.overridden, ∅) Sample.users)
    as [[out' seen']|e] eqn:Hm; [|by vm_compute in Hm].
  exists (out', seen').
  destruct (Hstep _ _ Hseed) as (_ & _ & _ & _ & Hdoc).
  destruct (Hdoc _ _ _ _ Hm) as (Hs & Hk).
  by split.
Defined.

(** The shape is kept along a whole run. *)
Lemma merge_specs_shaped w paths out :
  merge_specs w paths = OK out → shaped (servers_of w) out.
Proof.
  intros (seen & P & c1 & c2 & c3 & c4 & [= -> _])%merge_specs_run_inv.
  constructor.
Qed.

(** ** Absent and null sections (C10) *)

Lemma absent_or_null_default k d dflt :
  absent_or_null k d → truthy dflt = false →
  truthy (default dflt (dict_get k d)) = false.
Proof. by intros [-> | ->]. Qed.

Lemma py_or_falsy a b : truthy a = false → py_or a b = b.
Proof. unfold py_or. by intros ->. Qed.

Lemma tag_entries_absent d :
  absent_or_null "tags" d → tag_entries (VDict d) = [].
Proof. unfold tag_entries. simpl. by intros [-> | ->]. Qed.

Lemma paths_src_absent d :
  absent_or_null "paths" d → truthy (paths_src (VDict d)) = false.
Proof. simpl. by intros [-> | ->]. Qed.

Lemma comp_src_absent d key :
  absent_or_null "components" d ∨
  (∃ c, dict_get "components" d = Some (VDict c) ∧ absent_or_null key c) →
  comp_src (VDict d) key = VDict [].
Proof.
  unfold comp_src.
  intros [[-> | ->] | (c & -> & Hk)]; try done.
  assert (py_or (default (VDict []) (dict_get key c)) (VDict []) = VDict [])
    as Hsub by (by destruct Hk as [-> | ->]).
  destruct c as [|kv c']; [done|]. exact Hsub.
Qed.

Lemma merge_paths_absent srv out d :
  shaped srv out → absent_or_null "paths" d → merge_paths out (VDict d) = OK out.
Proof.
  intros [P c1 c2 c3 c4 T] Habs. rewrite merge_paths_mk_out.
  cbn [py_get mbind result_bind].
  by rewrite deep_merge_dict_falsy by by apply absent_or_null_default.
Qed.

Lemma merge_component_absent srv out c key :
  shaped srv out → key ∈ component_keys → absent_or_null key c →
  merge_component (VDict c) out key = OK out.
Proof.
  intros [P c1 c2 c3 c4 T] Hkey Habs.
  destruct (merge_component_mk_out (VDict c) (VDict P) (VDict c1) (VDict c2)
              (VDict c3) (VDict c4) (VList T) srv) as (H1 & H2 & H3 & H4).
  assert (py_or (default (VDict []) (dict_get key c)) (VDict []) = VDict [])
    as Hsrc by (by destruct Habs as [-> | ->]).
  unfold component_keys in Hkey.
  rewrite !elem_of_cons, elem_of_nil in Hkey.
  destruct Hkey as [-> | [-> | [-> | [-> | []]]]].
  - rewrite H1. cbn [py_get mbind result_bind]. by rewrite Hsrc.
  - rewrite H2. cbn [py_get mbind result_bind]. by rewrite Hsrc.
  - rewrite H3. cbn [py_get mbind result_bind]. by rewrite Hsrc.
  - rewrite H4. cbn [py_get mbind result_bind]. by rewrite Hsrc.
Qed.

Lemma merge_components_absent srv out d :
  shaped srv out → absent_or_null "components" d →
  merge_components out (VDict d) = OK out.
Proof.
  intros [P c1 c2 c3 c4 T] Habs. rewrite merge_components_mk_out.
  cbn [py_get mbind result_bind].
  by rewrite py_or_falsy by by apply absent_or_null_default.
Qed.

Lemma merge_tags_absent st d :
  absent_or_null "tags" d → merge_tags st (VDict d) = OK st.
Proof.
  intros Habs. unfold merge_tags. cbn [py_get mbind result_bind].
  by rewrite py_or_falsy by by apply absent_or_null_default.
Qed.

(** C10: for a document (a mapping) and an accumulator of the run, a
    section that is absent or null is merged without error and leaves the
    accumulator as it was: the paths, the components as a whole, any one
    of the four containers, the tags (and the set of seen names).  Within
    the merge of the whole document, the corresponding part of the
    accumulator is unchanged; a document with none of the three sections
    merges and changes nothing. *)
Theorem absent_sections_contribute_nothing srv out seen d :
  shaped srv out →
  (absent_or_null "paths" d → merge_paths out (VDict d) = OK out) ∧
  (absent_or_null "components" d → merge_components out (VDict d) = OK out) ∧
  (∀ c key, key ∈ component_keys → absent_or_null key c →
     merge_component (VDict c) out key = OK out) ∧
  (absent_or_null "tags" d → merge_tags (out, seen) (VDict d) = OK (out, seen)) ∧
  (absent_or_null "paths" d → absent_or_null "components" d →
   absent_or_null "tags" d → merge_doc (out, seen) (VDict d) = OK (out, seen)) ∧
  ∀ out' seen', merge_doc (out, seen) (VDict d) = OK (out', seen') →
    (absent_or_null "paths" d → dict_get "paths" out' = dict_get "paths" out) ∧
    (∀ key, key ∈ component_keys →
       absent_or_null "components" d ∨
       (∃ c, dict_get "components" d = Some (VDict c) ∧ absent_or_null key c) →
       at_path ["components"; key] (VDict out')
       = at_path ["components"; key] (VDict out)) ∧
    (absent_or_null "tags" d →
       dict_get "tags" out' = dict_get "tags" out ∧ seen' = seen).
Proof.
  intros Hs. split_and!.
  - by apply (merge_paths_absent srv).
  - by apply (merge_components_absent srv).
  - intros c key. by apply (merge_component_absent srv).
  - by apply merge_tags_absent.
  - intros Hp Hc Ht. unfold merge_doc. cbn [fst snd].
    rewrite (merge_paths_absent srv) by done. cbn [mbind result_bind].
    rewrite (merge_components_absent srv) by done. cbn [mbind result_bind].
    by apply merge_tags_absent.
  - intros out' seen'. destruct Hs as [P c1 c2 c3 c4 T].
    intros (P' & c1' & c2' & c3' & c4' & _ & HP & H1 & H2 & H3 & H4 & [= -> ->])%merge_doc_mk_out.
    split_and!.
    + intros Habs. rewrite deep_merge_dict_falsy in HP by by apply paths_src_absent.
      by injection HP as <-.
    + intros key Hkey Habs. apply comp_src_absent in Habs.
      unfold component_keys in Hkey.
      rewrite !elem_of_cons, elem_of_nil in Hkey.
      destruct Hkey as [-> | [-> | [-> | [-> | []]]]]; rewrite Habs in *.
      * by injection H1 as <-.
      * by injection H2 as <-.
      * by injection H3 as <-.
      * by injection H4 as <-.
    + intros Habs. rewrite (tag_entries_absent d Habs).
      change (first_occurrences []) with (@nil value).
      rewrite filter_nil, app_nil_r, names_of_nil. split; [done|].
      apply (right_id_L ∅ (∪)).
Qed.

Lemma absent_sections_contribute_nothing_witness :
  shaped [] initial_out ∧
  absent_or_null "paths" [("tags", VList [VDict [("name", VStr "c")]])] ∧
  merge_paths initial_out (VDict [("tags", VList [VDict [("name", VStr "c")]])])
  = OK initial_out.
Proof.
  assert (shaped [] initial_out) as Hs
    by exact (Shaped [] [] [] [] [] [] []).
  assert (absent_or_null "paths" [("tags", VList [VDict [("name", VStr "c")]])])
    as Ha by (left; reflexivity).
  split; [exact Hs|]. split; [exact Ha|].
  exact (proj1 (absent_sections_contribute_nothing [] initial_out ∅ _ Hs) Ha).
Defined.

(** * Further properties *)

(** ** When [deep_merge_dict] raises *)

Lemma raised_bind {A B} (r : result A) (f : A → result B) :
  raised (r ≫= f) =
  match r with OK a => raised (f a) | Raise e => Some e end.
Proof. by destruct r. Qed.

(** X1: when [deep_merge_dict] raises, on trees with string keys.  A
    falsy source (null, false, 0, the empty string, an empty sequence or
    mapping) raises nothing and leaves the destination, whatever it is, as
    it was; a truthy source that is not a mapping raises [AttributeError]
    (it has no [items]); a non-empty mapping merged into a destination that
    is not a mapping raises [TypeError]; a mapping merged into a mapping
    raises nothing and gives a mapping. *)
Theorem deep_merge_dict_raises dst src :
  (truthy src = false → deep_merge_dict dst src = OK dst) ∧
  (is_dict dst = true → is_dict src = true →
   ∃ d', deep_merge_dict dst src = OK (VDict d')) ∧
  raised (deep_merge_dict dst src) =
    if truthy src
    then if is_dict src
         then if is_dict dst then None else Some TypeError
         else Some AttributeError
    else None.
Proof.
  split; [apply deep_merge_dict_falsy|]. split.
  - destruct dst as [| | | | |d]; try done. intros _. apply deep_merge_dict_total.
  - destruct (is_dict src) eqn:Es.
    + destruct src as [| | | | |[|[k v] rest]]; try done.
      destruct dst as [| | | | |d]; try done.
      by destruct (deep_merge_dict_total (VDict ((k, v) :: rest)) d eq_refl)
        as [d' ->].
    + rewrite deep_merge_dict_leaf by done. by destruct (truthy src).
Qed.

Lemma deep_merge_dict_raises_witness :
  deep_merge_dict (VStr "kept") (VList []) = OK (VStr "kept") ∧
  (∃ d', deep_merge_dict (VDict [("a", VDict [])])
           (VDict [("a", VDict [("b", VNull)])]) = OK (VDict d')) ∧
  raised (deep_merge_dict (VList []) (VDict [("a", VInt 1)])) = Some TypeError ∧
  raised (deep_merge_dict (VDict []) (VStr "text")) = Some AttributeError.
Proof.
  split; [exact (proj1 (deep_merge_dict_raises (VStr "kept") (VList [])) eq_refl)|].
  split; [exact (proj1 (proj2 (deep_merge_dict_raises (VDict [("a", VDict [])])
                                (VDict [("a", VDict [("b", VNull)])])))
                   eq_refl eq_refl)|].
  split; [exact (proj2 (proj2 (deep_merge_dict_raises
                                 (VList []) (VDict [("a", VInt 1)]))))|].
  exact (proj2 (proj2 (deep_merge_dict_raises (VDict []) (VStr "text")))).
Defined.

(** ** Key order *)

Lemma filter_ext_in {A} (P Q : A → Prop) `{!∀ x, Decision (P x)}
    `{!∀ x, Decision (Q x)} (l : list A) :
  (∀ x, x ∈ l → (P x ↔ Q x)) → filter P l = filter Q l.
Proof.
  induction l as [|x r IH]; [done|]. intros Hpq. rewrite !filter_cons.
  rewrite IH by (intros y Hy; apply Hpq; by right).
  destruct (decide (P x)) as [Hp|Hp].
  - rewrite decide_True; [done|]. apply Hpq; [by left|done].
  - rewrite decide_False; [done|]. intros Hq. apply Hp, Hpq; [by left|done].
Qed.

(** X2: for a destination and a source that are trees, the keys of the
    merged mapping are the keys of the destination, in their order,
    followed by the keys of the source that the destination did not have,
    in the order of the source. *)
Theorem deep_merge_dict_keys D S D' :
  NoDup (keys S) →
  deep_merge_dict (VDict D) (VDict S) = OK (VDict D') →
  keys D' = keys D ++ filter (λ k, k ∉ keys D) (keys S).
Proof.
  rewrite deep_merge_dict_items. revert D D'.
  induction S as [|[k v] rest IH]; intros d d'; simpl.
  - intros _ [= ->]. by rewrite app_nil_r.
  - rewrite NoDup_cons. intros [Hk Hnd]. rewrite bind_OK.
    intros (dst1 & H1 & Hrest).
    apply merge_entry_rule in H1 as (new & _ & ->).
    rewrite (IH _ _ Hnd Hrest), keys_dict_set, filter_cons.
    destruct (decide (k ∈ keys d)) as [Hin|Hnin].
    + rewrite decide_False by tauto. done.
    + rewrite decide_True by done. rewrite <- app_assoc. simpl. do 2 f_equal.
      apply filter_ext_in. intros k' Hk'.
      rewrite not_elem_of_app, list_elem_of_singleton.
      split; [tauto|]. intros ?. split; [done|]. by intros ->.
Qed.

Lemma deep_merge_dict_keys_witness :
  NoDup (keys StoreSample.src_tree) ∧
  deep_merge_dict (VDict StoreSample.dst_tree) (VDict StoreSample.src_tree)
  = OK (VDict [("a", VDict [("x", VInt 1); ("y", VInt 3)]); ("b", VInt 2);
               ("c", VList [VInt 1])]) ∧
  keys [("a", VDict [("x", VInt 1); ("y", VInt 3)]); ("b", VInt 2);
        ("c", VList [VInt 1])]
  = keys StoreSample.dst_tree
    ++ filter (λ k, k ∉ keys StoreSample.dst_tree) (keys StoreSample.src_tree).
Proof.
  assert (NoDup (keys StoreSample.src_tree)) as Hnd
    by (by apply (bool_decide_unpack _)).
  split; [done|]. split; [done|].
  exact (deep_merge_dict_keys StoreSample.dst_tree StoreSample.src_tree _ Hnd eq_refl).
Defined.

(** ** Merging again, and merging what does not collide *)

(** X3: on trees, [deep_merge_dict] is idempotent in its source: merging
    the same source again into the result of a merge leaves it as it
    is. *)
Theorem deep_merge_dict_idempotent dst src dst' :
  wf src →
  deep_merge_dict dst src = OK dst' → deep_merge_dict dst' src = OK dst'.
Proof. intros Hwf. by apply deep_merge_dict_again. Qed.

Lemma deep_merge_dict_idempotent_witness :
  wf (VDict StoreSample.src_tree) ∧
  deep_merge_dict (VDict [("a", VDict [("x", VInt 1); ("y", VInt 3)]);
                          ("b", VInt 2); ("c", VList [VInt 1])])
                  (VDict StoreSample.src_tree)
  = OK (VDict [("a", VDict [("x", VInt 1); ("y", VInt 3)]); ("b", VInt 2);
               ("c", VList [VInt 1])]).
Proof.
  assert (wf (VDict StoreSample.src_tree)) as Hwf by (by apply wf_b_wf).
  split; [done|].
  exact (deep_merge_dict_idempotent (VDict StoreSample.dst_tree) _ _ Hwf eq_refl).
Defined.

(** X4: merging a source into a mapping that has none of its keys appends
    the source: the destination's entries, then the source's entries, each
    with its value. *)
Theorem deep_merge_dict_disjoint D S :
  NoDup (keys S) → (∀ k, k ∈ keys S → k ∉ keys D) →
  deep_merge_dict (VDict D) (VDict S) = OK (VDict (D ++ S)).
Proof. rewrite deep_merge_dict_items. apply merge_items_disjoint. Qed.

Lemma deep_merge_dict_disjoint_witness :
  deep_merge_dict (VDict [("/users", VDict [("get", VDict [])])])
                  (VDict [("/sessions", VDict [("post", VDict [])]);
                          ("/health", VNull)])
  = OK (VDict [("/users", VDict [("get", VDict [])]);
               ("/sessions", VDict [("post", VDict [])]);
               ("/health", VNull)]).
Proof.
  apply (deep_merge_dict_disjoint [("/users", VDict [("get", VDict [])])]
           [("/sessions", VDict [("post", VDict [])]); ("/health", VNull)]).
  - by apply (bool_decide_unpack _).
  - intros k Hk. apply (bool_decide_unpack _).
    revert k Hk. apply Forall_forall. by repeat constructor.
Defined.

Lemma entry_rule_fun old v new new' :
  entry_rule old v new → entry_rule old v new' → new = new'.
Proof.
  unfold entry_rule. destruct old as [[| | | | |dk]|]; try congruence.
  destruct (is_dict v); congruence.
Qed.

(** X5: into a destination that is a tree, two sources that are trees with
    no top-level key in common can be merged in either order: both orders
    succeed and the results hold the same value under every key (the
    order of the keys may differ). *)
Theorem disjoint_sources_commute D S1 S2 :
  NoDup (keys S1) → NoDup (keys S2) → (∀ k, k ∈ keys S1 → k ∉ keys S2) →
  ∃ D12 D21,
    (D1 ← deep_merge_dict (VDict D) (VDict S1); deep_merge_dict D1 (VDict S2))
    = OK (VDict D12) ∧
    (D2 ← deep_merge_dict (VDict D) (VDict S2); deep_merge_dict D2 (VDict S1))
    = OK (VDict D21) ∧
    ∀ k, dict_get k D12 = dict_get k D21.
Proof.
  intros Hnd1 Hnd2 Hdis. rewrite !deep_merge_dict_items.
  destruct (merge_items_rule S1 D Hnd1) as (D1 & HD1 & Hin1 & Hout1).
  destruct (merge_items_rule S2 D1 Hnd2) as (D12 & HD12 & Hin12 & Hout12).
  destruct (merge_items_rule S2 D Hnd2) as (D2 & HD2 & Hin2 & Hout2).
  destruct (merge_items_rule S1 D2 Hnd1) as (D21 & HD21 & Hin21 & Hout21).
  exists D12, D21. rewrite HD1, HD2. cbn [mbind result_bind].
  rewrite !deep_merge_dict_items.
  split; [done|]. split; [done|]. intros k.
  destruct (dict_get k S1) as [v1|] eqn:E1.
  - assert (dict_get k S2 = None) as E2.
    { apply dict_get_None_keys, Hdis. by eapply dict_get_Some_keys. }
    rewrite (Hout12 k E2).
    destruct (Hin1 k v1 E1) as (new & -> & Hnew).
    destruct (Hin21 k v1 E1) as (new' & -> & Hnew').
    rewrite (Hout2 k E2) in Hnew'. f_equal. by eapply entry_rule_fun.
  - rewrite (Hout21 k E1).
    destruct (dict_get k S2) as [v2|] eqn:E2.
    + destruct (Hin12 k v2 E2) as (new & -> & Hnew).
      destruct (Hin2 k v2 E2) as (new' & -> & Hnew').
      rewrite (Hout1 k E1) in Hnew. f_equal. by eapply entry_rule_fun.
    + by rewrite (Hout12 k E2), (Hout1 k E1), (Hout2 k E2).
Qed.

Lemma disjoint_sources_commute_witness :
  ∃ D12 D21,
    (D1 ← deep_merge_dict (VDict [("a", VInt 0)])
            (VDict [("a", VInt 1); ("b", VInt 2)]);
     deep_merge_dict D1 (VDict [("c", VInt 3)]))
    = OK (VDict D12) ∧
    (D2 ← deep_merge_dict (VDict [("a", VInt 0)]) (VDict [("c", VInt 3)]);
     deep_merge_dict D2 (VDict [("a", VInt 1); ("b", VInt 2)]))
    = OK (VDict D21) ∧
    ∀ k, dict_get k D12 = dict_get k D21.
Proof.
  apply (disjoint_sources_commute [("a", VInt 0)]
           [("a", VInt 1); ("b", VInt 2)] [("c", VInt 3)]).
  - by apply (bool_decide_unpack _).
  - by apply (bool_decide_unpack _).
  - intros k Hk. apply (bool_decide_unpack _).
    revert k Hk. apply Forall_forall. by repeat constructor.
Defined.

(** ** Documents that do not merge *)

Lemma first_error_cons e es :
  first_error (e :: es) = match e with Some x => Some x | None => first_error es end.
Proof. by destruct e. Qed.

Lemma raised_merge_section d src :
  raised (deep_merge_dict (VDict d) src) = section_error src.
Proof.
  unfold section_error. destruct (is_dict src) eqn:Es.
  - destruct (deep_merge_dict_total src d Es) as [d' ->].
    by rewrite andb_false_r.
  - rewrite deep_merge_dict_leaf, andb_true_r by done. by destruct (truthy src).
Qed.

Lemma section_error_py_or v : section_error (py_or v (VDict [])) = section_error v.
Proof.
  unfold py_or. destruct (truthy v) eqn:E; [done|].
  unfold section_error. by rewrite E.
Qed.

Lemma raised_merge_tag P c1 c2 c3 c4 T srv seen t :
  raised (merge_tag (mk_out P c1 c2 c3 c4 (VList T) srv, seen) t) = tag_error t.
Proof.
  unfold merge_tag, tag_error. destruct t as [| | | | |d]; try done.
  cbn [py_get mbind result_bind fst snd].
  destruct (truthy _); [|done].
  destruct (py_hash _) as [h|e]; [|done]. cbn [mbind result_bind raised].
  by destruct (decide (h ∈ seen)).
Qed.

Lemma raised_merge_tags_loop P c1 c2 c3 c4 srv ts : ∀ T seen,
  raised (foldM merge_tag (mk_out P c1 c2 c3 c4 (VList T) srv, seen) ts)
  = first_error (map tag_error ts).
Proof.
  induction ts as [|t r IH]; intros T seen; [done|].
  cbn [foldM map]. rewrite raised_bind, first_error_cons.
  rewrite <- (raised_merge_tag P c1 c2 c3 c4 T srv seen t).
  destruct (merge_tag _ t) as [st1|e] eqn:E1; [|done].
  apply merge_tag_mk_out in E1 as ->. apply IH.
Qed.

Lemma raised_merge_tags P c1 c2 c3 c4 T srv seen d :
  raised (merge_tags (mk_out P c1 c2 c3 c4 (VList T) srv, seen) (VDict d))
  = tags_error (default (VList []) (dict_get "tags" d)).
Proof.
  unfold merge_tags, tags_error. cbn [py_get mbind result_bind].
  destruct (py_iter _) as [ts|e]; [|done]. apply raised_merge_tags_loop.
Qed.

Lemma raised_merge_doc P c1 c2 c3 c4 T srv seen spec :
  raised (merge_doc (mk_out (VDict P) (VDict c1) (VDict c2) (VDict c3) (VDict c4)
                            (VList T) srv, seen) spec)
  = doc_error spec.
Proof.
  destruct spec as [| | | | |d]; try done.
  rewrite merge_doc_unfold. unfold doc_error, components_error.
  rewrite raised_bind, first_error_cons.
  rewrite <- (raised_merge_section P).
  unfold paths_src, comp_src.
  destruct (deep_merge_dict (VDict P) _) as [P'|e]; [|done]. cbn [raised].
  rewrite first_error_cons.
  destruct (py_or (default (VDict []) (dict_get "components" d)) (VDict []))
    as [| | | | |c]; try done.
  unfold component_keys. cbn [map].
  rewrite raised_bind, first_error_cons, <- section_error_py_or.
  rewrite <- (raised_merge_section c1).
  destruct (deep_merge_dict (VDict c1) _) as [c1'|e]; [|done]. cbn [raised].
  rewrite raised_bind, first_error_cons, <- section_error_py_or.
  rewrite <- (raised_merge_section c2).
  destruct (deep_merge_dict (VDict c2) _) as [c2'|e]; [|done]. cbn [raised].
  rewrite raised_bind, first_error_cons, <- section_error_py_or.
  rewrite <- (raised_merge_section c3).
  destruct (deep_merge_dict (VDict c3) _) as [c3'|e]; [|done]. cbn [raised].
  rewrite raised_bind, first_error_cons, <- section_error_py_or.
  rewrite <- (raised_merge_section c4).
  destruct (deep_merge_dict (VDict c4) _) as [c4'|e]; [|done]. cbn [raised].
  rewrite raised_merge_tags, first_error_cons.
  by destruct (tags_error _).
Qed.

(** X6: for documents that are trees, whether merging a document into the
    accumulator raises, and which exception, is decided by the document
    alone, not by what was merged before: a document that is not a
    mapping, or whose [paths], [components] or one of the four component
    containers is truthy and not a mapping, raises [AttributeError]; [tags] that cannot be iterated
    raise [TypeError]; a tag entry that is not a mapping raises
    [AttributeError] and one whose truthy name cannot be hashed raises
    [TypeError]; the first of these in the order paths, components, tags
    is the one raised, and any other document merges. *)
Theorem merge_doc_raises srv out seen spec :
  shaped srv out → raised (merge_doc (out, seen) spec) = doc_error spec.
Proof. intros []. apply raised_merge_doc. Qed.

Lemma merge_doc_raises_witness :
  shaped [] initial_out ∧
  raised (merge_doc (initial_out, ∅)
            (VDict [("paths", VNull);
                    ("tags", VList [VDict [("name", VList [VStr "a"])]])]))
  = Some TypeError.
Proof.
  assert (shaped [] initial_out) as Hs by apply (Shaped [] [] [] [] [] [] []).
  split; [done|]. exact (merge_doc_raises [] initial_out ∅ _ Hs).
Defined.

(** ** The first input that fails *)

Lemma raised_merge_input w P c1 c2 c3 c4 T srv seen p :
  raised (merge_input w (mk_out (VDict P) (VDict c1) (VDict c2) (VDict c3)
                                (VDict c4) (VList T) srv, seen) p)
  = match files w p with
    | Some spec => doc_error spec
    | None => Some (LoadError p)
    end.
Proof.
  unfold merge_input, load_yaml. destruct (files w p) as [spec|]; [|done].
  apply raised_merge_doc.
Qed.

Lemma head_omap_cons {A B} (f : A → option B) x l :
  head (omap f (x :: l)) =
  match f x with Some y => Some y | None => head (omap f l) end.
Proof. simpl. by destruct (f x). Qed.

Lemma raised_run w paths : ∀ P c1 c2 c3 c4 T srv seen,
  raised (foldM (merge_input w)
            (mk_out (VDict P) (VDict c1) (VDict c2) (VDict c3) (VDict c4)
                    (VList T) srv, seen) paths)
  = head (omap (λ p, raised (merge_input w (seed w, ∅) p)) paths).
Proof.
  induction paths as [|p r IH]; intros P c1 c2 c3 c4 T srv seen; [done|].
  cbn [foldM]. rewrite raised_bind, head_omap_cons.
  rewrite seed_mk_out at 1. rewrite (raised_merge_input w [] [] [] [] [] []).
  rewrite <- (raised_merge_input w P c1 c2 c3 c4 T srv seen).
  destruct (merge_input w _ p) as [st1|e] eqn:E1; [|done]. cbn [raised].
  unfold merge_input, load_yaml in E1.
  destruct (files w p) as [spec|]; [|done]. cbn [mbind result_bind] in E1.
  apply merge_doc_mk_out in E1
    as (P' & c1' & c2' & c3' & c4' & _ & _ & _ & _ & _ & _ & ->).
  apply IH.
Qed.

(** X7: for inputs that are trees, a run of [merge_specs] raises exactly
    when one of its inputs raises when merged alone, and it raises the
    exception of the first such input in the list. *)
Theorem merge_specs_first_failure w paths :
  raised (merge_specs w paths)
  = head (omap (λ p, raised (merge_specs w [p])) paths).
Proof.
  assert (∀ p, raised (merge_specs w [p]) = raised (merge_input w (seed w, ∅) p))
    as Hone.
  { intros p. unfold merge_specs. cbn [foldM].
    by destruct (merge_input w _ p). }
  rewrite (list_omap_ext _ (λ p, raised (merge_input w (seed w, ∅) p)) paths paths)
    by (apply Forall2_same_length_lookup_2; [done|]; intros; simplify_eq; apply Hone).
  pose proof (raised_run w paths [] [] [] [] [] [] (servers_of w) ∅) as Hrun.
  rewrite <- seed_mk_out in Hrun. rewrite <- Hrun.
  unfold merge_specs. by destruct (foldM _ _ paths).
Qed.

(** ** Containers only grow *)

Lemma merge_items_keys_prefix items : ∀ d d',
  merge_items (VDict d) items = OK (VDict d') → keys d `prefix_of` keys d'.
Proof.
  induction items as [|[k v] rest IH]; intros d d'; simpl.
  - by intros [= ->].
  - rewrite bind_OK. intros (dst1 & H1 & Hrest).
    apply merge_entry_rule in H1 as (new & _ & ->).
    etrans; [|by apply (IH _ _ Hrest)].
    rewrite keys_dict_set. destruct (decide _); [done|]. by apply prefix_app_r.
Qed.

Lemma merge_items_keys_src items : ∀ d d' k,
  merge_items (VDict d) items = OK (VDict d') → k ∈ keys items → k ∈ keys d'.
Proof.
  induction items as [|[k0 v0] rest IH]; intros d d' k; simpl.
  - by intros _ ?%elem_of_nil.
  - rewrite bind_OK. intros (dst1 & H1 & Hrest).
    apply merge_entry_rule in H1 as (new & _ & ->).
    intros [->|Hk]%elem_of_cons; [|by eapply IH].
    apply merge_items_keys_prefix in Hrest as [suffix ->].
    apply elem_of_app. left.
    eapply dict_get_Some_keys, dict_get_set_eq.
Qed.

Lemma deep_merge_dict_keys_prefix d src d' :
  deep_merge_dict (VDict d) src = OK (VDict d') → keys d `prefix_of` keys d'.
Proof.
  destruct (is_dict src) eqn:Es.
  - destruct src as [| | | | |items]; try done.
    rewrite deep_merge_dict_items. apply merge_items_keys_prefix.
  - rewrite deep_merge_dict_leaf by done.
    destruct (truthy src); [done|]. by intros [= ->].
Qed.

(** From a well-shaped accumulator, a run ends on one whose containers
    extend, key for key and tag for tag, the ones it started from. *)
Lemma run_grows w l : ∀ P c1 c2 c3 c4 T srv seen st',
  foldM (merge_input w)
    (mk_out (VDict P) (VDict c1) (VDict c2) (VDict c3) (VDict c4) (VList T) srv,
     seen) l = OK st' →
  ∃ P' c1' c2' c3' c4' T' seen',
    st' = (mk_out (VDict P') (VDict c1') (VDict c2') (VDict c3') (VDict c4')
                  (VList T') srv, seen') ∧
    keys P `prefix_of` keys P' ∧
    keys c1 `prefix_of` keys c1' ∧ keys c2 `prefix_of` keys c2' ∧
    keys c3 `prefix_of` keys c3' ∧ keys c4 `prefix_of` keys c4' ∧
    T `prefix_of` T'.
Proof.
  induction l as [|p r IH]; intros P c1 c2 c3 c4 T srv seen st'; cbn [foldM].
  - intros [= <-]. by exists P, c1, c2, c3, c4, T, seen.
  - rewrite bind_OK. intros (st1 & H1 & Hr).
    unfold merge_input, load_yaml in H1.
    destruct (files w p) as [spec|]; [|done]. cbn [mbind result_bind] in H1.
    apply merge_doc_mk_out in H1
      as (P1 & a1 & a2 & a3 & a4 & _ & HP & H1 & H2 & H3 & H4 & ->).
    apply IH in Hr
      as (P' & c1' & c2' & c3' & c4' & T' & seen' & -> & ? & ? & ? & ? & ? & HT).
    exists P', c1', c2', c3', c4', T', seen'. split; [done|].
    repeat split;
      try (etrans; [by eapply deep_merge_dict_keys_prefix|done]).
    etrans; [|done]. by apply prefix_app_r.
Qed.

Lemma at_path_component_mk_out P c1 c2 c3 c4 T srv key :
  key ∈ component_keys →
  at_path ["components"; key] (VDict (mk_out P c1 c2 c3 c4 T srv)) =
  Some (if String.eqb key "schemas" then c1
        else if String.eqb key "securitySchemes" then c2
        else if String.eqb key "parameters" then c3 else c4).
Proof.
  unfold component_keys. rewrite !elem_of_cons, elem_of_nil.
  by intros [->|[->|[->|[->|[]]]]].
Qed.

(** X9: listing more inputs after the others only appends: the keys of
    [paths] and of each component container, and the tag entries, that the
    shorter run produces are a prefix of what the longer run produces. *)
Theorem more_inputs_only_append w pre post out1 out2 :
  merge_specs w pre = OK out1 →
  merge_specs w (pre ++ post) = OK out2 →
  (∃ P1 P2, dict_get "paths" out1 = Some (VDict P1) ∧
            dict_get "paths" out2 = Some (VDict P2) ∧
            keys P1 `prefix_of` keys P2) ∧
  (∀ key, key ∈ component_keys →
     ∃ C1 C2, at_path ["components"; key] (VDict out1) = Some (VDict C1) ∧
              at_path ["components"; key] (VDict out2) = Some (VDict C2) ∧
              keys C1 `prefix_of` keys C2) ∧
  (∃ T1 T2, dict_get "tags" out1 = Some (VList T1) ∧
            dict_get "tags" out2 = Some (VList T2) ∧
            T1 `prefix_of` T2).
Proof.
  unfold merge_specs. rewrite foldM_app, !bind_OK.
  intros (st1 & H1 & [= <-]) (st2 & H2 & [= <-]).
  rewrite H1 in H2. cbn [mbind result_bind] in H2.
  rewrite seed_mk_out in H1.
  apply run_grows in H1
    as (P1 & a1 & a2 & a3 & a4 & T1 & seen1 & -> & _).
  apply run_grows in H2
    as (P2 & b1 & b2 & b3 & b4 & T2 & seen2 & -> & HP & Hc1 & Hc2 & Hc3 & Hc4 & HT).
  cbn [fst]. split; [by exists P1, P2|]. split; [|by exists T1, T2].
  intros key Hkey. rewrite !at_path_component_mk_out by done.
  revert Hkey. unfold component_keys. rewrite !elem_of_cons, elem_of_nil.
  intros [->|[->|[->|[->|[]]]]]; cbn; eauto.
Qed.

Lemma more_inputs_only_append_witness :
  ∃ out1,
    merge_specs Sample.plain ["users.yaml"] = OK out1 ∧
    merge_specs Sample.plain (["users.yaml"] ++ ["sessions.yaml"])
    = OK Sample.merged ∧
    ∃ T1 T2,
      dict_get "tags" out1 = Some (VList T1) ∧
      dict_get "tags" Sample.merged = Some (VList T2) ∧
      T1 `prefix_of` T2.
Proof.
  eexists. split; [vm_compute; reflexivity|]. split; [reflexivity|].
  apply (more_inputs_only_append Sample.plain ["users.yaml"] ["sessions.yaml"]
           _ Sample.merged); reflexivity.
Defined.

(** X10: no key of an input is lost: every key of the [paths] mapping of
    an input is a key of the merged [paths], and every key of one of its
    four component containers is a key of the merged container. *)
Theorem input_keys_kept w paths out p spec :
  merge_specs w paths = OK out → p ∈ paths → files w p = Some spec →
  (∀ S k, paths_src spec = VDict S → k ∈ keys S →
     ∃ P, dict_get "paths" out = Some (VDict P) ∧ k ∈ keys P) ∧
  (∀ key S k, key ∈ component_keys → comp_src spec key = VDict S → k ∈ keys S →
     ∃ C, at_path ["components"; key] (VDict out) = Some (VDict C) ∧ k ∈ keys C).
Proof.
  intros Hrun (l1 & l2 & ->)%list_elem_of_split Hp.
  revert Hrun. unfold merge_specs.
  rewrite foldM_app, !bind_OK. intros (st & (st1 & H1 & H2)%bind_OK & [= <-]).
  rewrite seed_mk_out in H1.
  apply run_grows in H1 as (P1 & a1 & a2 & a3 & a4 & T1 & seen1 & -> & _).
  cbn [foldM] in H2. apply bind_OK in H2 as (st2 & H2 & H3).
  unfold merge_input, load_yaml in H2. rewrite Hp in H2.
  cbn [mbind result_bind] in H2.
  apply merge_doc_mk_out in H2
    as (P2 & b1 & b2 & b3 & b4 & _ & HP & Hb1 & Hb2 & Hb3 & Hb4 & ->).
  apply run_grows in H3
    as (P3 & c1 & c2 & c3 & c4 & T3 & seen3 & -> & [? HP3] & [? Hc1] & [? Hc2]
        & [? Hc3] & [? Hc4] & _).
  cbn [fst].
  assert (∀ d S d' k, deep_merge_dict (VDict d) (VDict S) = OK (VDict d') →
            k ∈ keys S → k ∈ keys d') as Hsrc.
  { intros d S d' k. rewrite deep_merge_dict_items. apply merge_items_keys_src. }
  split.
  - intros S k HS Hk. rewrite HS in HP. exists P3. split; [done|].
    rewrite HP3. apply elem_of_app. left. by eapply Hsrc.
  - intros key S k Hkey HS Hk. rewrite at_path_component_mk_out by done.
    revert Hkey HS. unfold component_keys. rewrite !elem_of_cons, elem_of_nil.
    intros [->|[->|[->|[->|[]]]]] HS; cbn.
    + rewrite HS in Hb1. exists c1. split; [done|].
      rewrite Hc1. apply elem_of_app. left. by eapply Hsrc.
    + rewrite HS in Hb2. exists c2. split; [done|].
      rewrite Hc2. apply elem_of_app. left. by eapply Hsrc.
    + rewrite HS in Hb3. exists c3. split; [done|].
      rewrite Hc3. apply elem_of_app. left. by eapply Hsrc.
    + rewrite HS in Hb4. exists c4. split; [done|].
      rewrite Hc4. apply elem_of_app. left. by eapply Hsrc.
Qed.

Lemma input_keys_kept_witness :
  merge_specs Sample.plain ["users.yaml"; "sessions.yaml"] = OK Sample.merged ∧
  ∃ P, dict_get "paths" Sample.merged = Some (VDict P) ∧ "/x" ∈ keys P.
Proof.
  split; [reflexivity|].
  assert ("users.yaml" ∈ ["users.yaml"; "sessions.yaml"]) as Hin by left.
  destruct (input_keys_kept Sample.plain ["users.yaml"; "sessions.yaml"]
              Sample.merged "users.yaml" Sample.users eq_refl Hin eq_refl)
    as [Hpaths _].
  apply (Hpaths _ "/x" eq_refl). by left.
Defined.

(** ** What is read of a document *)

(** X11: the [openapi] and [info] entries of the merged document are the
    fixed ones, whatever the inputs hold under these keys. *)
Theorem header_fixed w paths out :
  merge_specs w paths = OK out →
  dict_get "openapi" out = Some (VStr "3.0.3") ∧
  dict_get "info" out
  = Some (VDict [("title", VStr "FocusNest - All Services");
                 ("version", VStr "1.0.0")]).
Proof.
  intros [seen (P & c1 & c2 & c3 & c4 & [= -> _])]%merge_specs_run_inv. done.
Qed.

Lemma header_fixed_witness :
  merge_specs Sample.plain ["users.yaml"; "sessions.yaml"] = OK Sample.merged ∧
  dict_get "openapi" Sample.merged = Some (VStr "3.0.3") ∧
  dict_get "info" Sample.merged
  = Some (VDict [("title", VStr "FocusNest - All Services");
                 ("version", VStr "1.0.0")]).
Proof.
  split; [reflexivity|].
  exact (header_fixed Sample.plain ["users.yaml"; "sessions.yaml"]
           Sample.merged eq_refl).
Defined.

Lemma dict_get_filter_in (k : string) (ks : list string) (d : dict) :
  k ∈ ks → dict_get k (filter (λ kv, kv.1 ∈ ks) d) = dict_get k d.
Proof.
  intros Hk. induction d as [|[k0 v0] r IH]; [done|].
  rewrite filter_cons. simpl. destruct (decide (k0 ∈ ks)) as [Hin|Hnin]; simpl.
  - by rewrite IH.
  - destruct (String.eqb_spec k k0) as [->|]; [done|]. apply IH.
Qed.

Lemma dict_get_map_value (g : string → value → value) k (d : dict) :
  dict_get k (map (λ kv, (kv.1, g kv.1 kv.2)) d) = g k <$> dict_get k d.
Proof.
  induction d as [|[k0 v0] r IH]; [done|]. simpl.
  by destruct (String.eqb_spec k k0) as [->|].
Qed.

Lemma py_get_py_or_dict (x : dict) key dflt :
  py_get (py_or (VDict x) (VDict [])) key dflt = OK (default dflt (dict_get key x)).
Proof. by destruct x. Qed.

Lemma py_get_restrict raw key dflt :
  key ∈ component_keys →
  py_get (py_or (restrict component_keys raw) (VDict [])) key dflt
  = py_get (py_or raw (VDict [])) key dflt.
Proof.
  intros Hkey. destruct raw as [| | | | |c]; try done.
  cbn [restrict]. by rewrite !py_get_py_or_dict, dict_get_filter_in.
Qed.

Lemma foldM_ext_in {A B} (f g : A → B → result A) l :
  (∀ a x, x ∈ l → f a x = g a x) → ∀ a, foldM f a l = foldM g a l.
Proof.
  induction l as [|x r IH]; intros Hfg a; simpl; [done|].
  rewrite Hfg by left. destruct (g a x); simpl; [|done].
  apply IH. intros a' y Hy. apply Hfg. by right.
Qed.

Lemma merge_doc_sections_read st spec :
  merge_doc st (sections_read spec) = merge_doc st spec.
Proof.
  destruct spec as [| | | | |d]; try done.
  assert (∀ k dflt, k ∈ read_keys → k ≠ "components" →
            py_get (sections_read (VDict d)) k dflt = py_get (VDict d) k dflt)
    as Hget.
  { intros k dflt Hk Hne. cbn [sections_read py_get].
    rewrite (dict_get_map_value
               (λ k v, if String.eqb k "components"
                       then restrict component_keys v else v)).
    rewrite dict_get_filter_in by done.
    apply String.eqb_neq in Hne. rewrite Hne. by destruct (dict_get k d). }
  assert (∀ out, merge_components out (sections_read (VDict d))
                 = merge_components out (VDict d)) as Hcomp.
  { intros out. unfold merge_components. cbn [sections_read py_get].
    rewrite (dict_get_map_value
               (λ k v, if String.eqb k "components"
                       then restrict component_keys v else v)).
    rewrite dict_get_filter_in by (by apply (bool_decide_unpack _)).
    cbn [mbind result_bind].
    destruct (dict_get "components" d) as [raw|]; [|done]. cbn -[foldM].
    apply foldM_ext_in. intros a key Hkey. unfold merge_component.
    by rewrite py_get_restrict. }
  unfold merge_doc, merge_paths, merge_tags.
  rewrite !Hget by (by apply (bool_decide_unpack _)).
  destruct (getitem st.1 "paths" ≫= _) as [out1|]; [|done].
  cbn [mbind result_bind]. by rewrite Hcomp.
Qed.

(** X12: of a document, [merge_specs] reads the entries [paths],
    [components] and [tags], and of [components] the four containers;
    every other entry can be taken away without any effect on the merge. *)
Theorem only_sections_read w paths :
  (∀ st spec, merge_doc st (sections_read spec) = merge_doc st spec) ∧
  merge_specs (only_read w) paths = merge_specs w paths.
Proof.
  split; [apply merge_doc_sections_read|].
  unfold merge_specs. f_equal. apply foldM_ext. intros st p.
  unfold merge_input, load_yaml. cbn [files only_read].
  destruct (files w p) as [spec|]; [|done]. apply merge_doc_sections_read.
Qed.

(** ** An input listed twice in a row *)

(** X13: an input that is a tree and is listed twice in a row, anywhere
    in a list of inputs that are trees, counts once. *)
Theorem repeated_input_absorbed w pre p post :
  (∀ spec, files w p = Some spec → wf spec) →
  merge_specs w (pre ++ p :: p :: post) = merge_specs w (pre ++ p :: post).
Proof.
  intros Hwf. unfold merge_specs. f_equal. rewrite !foldM_app.
  destruct (foldM (merge_input w) (seed w, ∅) pre) as [st|e] eqn:Hpre; [|done].
  rewrite seed_mk_out in Hpre.
  apply run_grows in Hpre as (P & c1 & c2 & c3 & c4 & T & seen & -> & _).
  cbn [mbind result_bind foldM].
  destruct (merge_input w _ p) as [st1|e] eqn:H1; [|done].
  cbn [mbind result_bind].
  assert (merge_input w st1 p = OK st1) as ->; [|done].
  revert H1. unfold merge_input, load_yaml.
  destruct (files w p) as [spec|] eqn:Hp; [|done]. cbn [mbind result_bind].
  apply merge_doc_again. by apply Hwf.
Qed.

Lemma repeated_input_absorbed_witness :
  (∀ spec, files Sample.plain "sessions.yaml" = Some spec → wf spec) ∧
  merge_specs Sample.plain
    (["users.yaml"] ++ "sessions.yaml" :: "sessions.yaml" :: ["tags.yaml"])
  = merge_specs Sample.plain (["users.yaml"] ++ "sessions.yaml" :: ["tags.yaml"]).
Proof.
  assert (∀ spec, files Sample.plain "sessions.yaml" = Some spec → wf spec) as Hwf.
  { intros spec [= <-]. by apply wf_b_wf. }
  split; [done|].
  exact (repeated_input_absorbed Sample.plain ["users.yaml"] "sessions.yaml"
           ["tags.yaml"] Hwf).
Defined.

(** ** One input *)

Lemma first_merge_copies src d' :
  wf src → deep_merge_dict (VDict []) src = OK (VDict d') →
  VDict d' = py_or src (VDict []).
Proof.
  intros Hwf. destruct (is_dict src) eqn:Es.
  - destruct src as [| | | | |s]; try done.
    rewrite deep_merge_dict_into_empty by (by apply wf_dict in Hwf as [? _]).
    intros [= <-]. by destruct s.
  - rewrite deep_merge_dict_leaf by done. unfold py_or.
    destruct (truthy src); [done|]. by intros [= <-].
Qed.

Lemma comp_src_py_or spec key :
  py_or (comp_src spec key) (VDict []) = comp_src spec key.
Proof.
  unfold comp_src. destruct spec as [| | | | |d]; try done.
  destruct (py_or (default (VDict []) (dict_get "components" d)) (VDict []))
    as [| | | | |c]; try done.
  generalize (default (VDict []) (dict_get key c)). intros v.
  unfold py_or. destruct (truthy v) eqn:E; [by rewrite E|done].
Qed.

(** X14: with one input, the merged [paths] and the four component
    containers are the corresponding sections of that input (an empty
    mapping where the section is missing or falsy), and the merged tags are
    the first occurrences among its tag entries. *)
Theorem single_input_sections w p spec out :
  files w p = Some spec → wf spec → merge_specs w [p] = OK out →
  dict_get "paths" out = Some (py_or (paths_src spec) (VDict [])) ∧
  (∀ key, key ∈ component_keys →
     at_path ["components"; key] (VDict out) = Some (comp_src spec key)) ∧
  dict_get "tags" out = Some (VList (first_occurrences (tag_entries spec))).
Proof.
  intros Hp Hwf. unfold merge_specs. cbn [foldM]. rewrite bind_OK.
  intros (st & (st1 & H1 & [= <-])%bind_OK & [= <-]). revert H1.
  unfold merge_input, load_yaml. rewrite Hp, seed_mk_out.
  cbn [mbind result_bind].
  intros (P & c1 & c2 & c3 & c4 & _ & HP & H1 & H2 & H3 & H4 & ->)%merge_doc_mk_out.
  apply first_merge_copies in HP; [|by apply wf_paths_src].
  assert (∀ key c, deep_merge_dict (VDict []) (comp_src spec key) = OK (VDict c) →
            VDict c = comp_src spec key) as Hc.
  { intros key c Hm. apply first_merge_copies in Hm; [|by apply wf_comp_src].
    by rewrite Hm, comp_src_py_or. }
  apply Hc in H1, H2, H3, H4. cbn [fst]. split; [by rewrite <- HP|].
  split; [|by rewrite unseen_empty].
  intros key Hkey. rewrite at_path_component_mk_out by done.
  revert Hkey. unfold component_keys. rewrite !elem_of_cons, elem_of_nil.
  intros [->|[->|[->|[->|[]]]]]; cbn; congruence.
Qed.

Lemma single_input_sections_witness :
  files Sample.plain "sessions.yaml" = Some Sample.sessions ∧
  wf Sample.sessions ∧
  ∃ out, merge_specs Sample.plain ["sessions.yaml"] = OK out ∧
         dict_get "paths" out
         = Some (VDict [("/x", VDict [("get",
                   VDict [("summary", VStr "from sessions")])])]).
Proof.
  assert (wf Sample.sessions) as Hwf by (by apply wf_b_wf).
  split; [done|]. split; [done|]. eexists. split; [vm_compute; reflexivity|].
  eapply (single_input_sections Sample.plain "sessions.yaml" Sample.sessions _
            eq_refl Hwf). reflexivity.
Defined.

(** ** The merged document is a document *)

Lemma wf_dict_set k v d :
  wf (VDict d) → wf v → wf (VDict (dict_set k v d)).
Proof.
  rewrite !wf_dict. intros [Hnd Hall] Hv. split.
  - rewrite keys_dict_set. destruct (decide (k ∈ keys d)); [done|].
    apply NoDup_app. split; [done|]. split; [|apply NoDup_singleton].
    intros k' Hk' ->%list_elem_of_singleton. done.
  - clear Hnd. induction Hall as [|[k' v'] r Hx Hr IH]; simpl.
    + by repeat constructor.
    + destruct (String.eqb k k'); by constructor.
Qed.

Lemma deep_merge_dict_wf src :
  wf src → ∀ d d', wf (VDict d) →
  deep_merge_dict (VDict d) src = OK (VDict d') → wf (VDict d').
Proof.
  induction src as [| | | | |items IH] using value_tree_ind;
    try (intros _ d d' Hd; rewrite deep_merge_dict_leaf by done;
         by destruct (truthy _); [|intros [= <-]]).
  rewrite wf_dict. intros [_ Hwf] d d'. rewrite deep_merge_dict_items.
  revert d d'.
  induction items as [|[k v] rest IHrest]; intros d d' Hd; simpl.
  { by intros [= <-]. }
  apply Forall_cons in IH as [IHv IHr]. apply Forall_cons in Hwf as [Hwv Hwr].
  cbn [fst snd] in IHv, Hwv.
  rewrite bind_OK. intros (dst1 & H1 & Hrest).
  apply merge_entry_rule in H1 as (new & Hnew & ->).
  apply (IHrest IHr Hwr _ _) in Hrest; [done|].
  apply wf_dict_set; [done|].
  unfold entry_rule in Hnew.
  assert (new = deepcopy v → wf new) as Hcopy by (intros ->; by rewrite deepcopy_eq).
  destruct (dict_get k d) as [[| | | | |dk]|] eqn:Hk; try by apply Hcopy.
  destruct (is_dict v) eqn:Ev; [|by apply Hcopy].
  destruct (deep_merge_dict_result_dict _ _ _ Hnew) as [dn ->].
  apply (IHv Hwv dk dn); [|done]. by eapply wf_dict_get.
Qed.

Lemma wf_tag_entries spec : wf spec → Forall wf (tag_entries spec).
Proof.
  intros Hwf. unfold tag_entries.
  destruct spec as [| | | | |d]; try by constructor.
  cbn [py_get mbind result_bind].
  assert (wf (py_or (default (VList []) (dict_get "tags" d)) (VList []))) as Hraw.
  { unfold py_or. destruct (truthy _); [|done].
    destruct (dict_get "tags" d) as [v|] eqn:E; [|done]. by eapply wf_dict_get. }
  destruct (py_or _ _) as [| | |s|l|c]; try by constructor.
  - simpl. clear. induction s; by constructor.
  - by apply wf_list.
  - simpl. clear. induction c; by constructor.
Qed.

Lemma wf_first_occurrences ts : Forall wf ts → Forall wf (first_occurrences ts).
Proof.
  rewrite !Forall_forall. intros Hall t Ht. apply Hall.
  by eapply sublist_subseteq; [apply first_occurrences_sublist|].
Qed.

Lemma wf_mk_out P c1 c2 c3 c4 T w :
  wf (VDict P) → wf (VDict c1) → wf (VDict c2) → wf (VDict c3) →
  wf (VDict c4) → Forall wf T →
  wf (VDict (mk_out (VDict P) (VDict c1) (VDict c2) (VDict c3) (VDict c4)
                    (VList T) (servers_of w))).
Proof.
  intros HP H1 H2 H3 H4 HT. apply wf_list in HT.
  assert (wf (VDict [("title", VStr "FocusNest - All Services");
                     ("version", VStr "1.0.0")])) as Hi by (by apply wf_b_wf).
  assert (wf (VDict [("schemas", VDict c1); ("securitySchemes", VDict c2);
                     ("parameters", VDict c3); ("responses", VDict c4)])) as Hc.
  { apply wf_dict. split; [by apply (bool_decide_unpack _)|].
    repeat (apply List.Forall_cons; [assumption|]). apply List.Forall_nil. }
  unfold servers_of. destruct (truthy _).
  - apply wf_dict. split; [by apply (bool_decide_unpack _)|].
    repeat (apply List.Forall_cons; [first [assumption|by apply wf_b_wf]|]).
    apply List.Forall_nil.
  - apply wf_dict. split; [by apply (bool_decide_unpack _)|].
    repeat (apply List.Forall_cons; [first [assumption|by apply wf_b_wf]|]).
    apply List.Forall_nil.
Qed.

Lemma run_wf w l :
  (∀ p spec, p ∈ l → files w p = Some spec → wf spec) →
  ∀ P c1 c2 c3 c4 T srv seen st',
    wf (VDict P) → wf (VDict c1) → wf (VDict c2) → wf (VDict c3) →
    wf (VDict c4) → Forall wf T →
    foldM (merge_input w)
      (mk_out (VDict P) (VDict c1) (VDict c2) (VDict c3) (VDict c4) (VList T) srv,
       seen) l = OK st' →
    ∃ P' c1' c2' c3' c4' T' seen',
      st' = (mk_out (VDict P') (VDict c1') (VDict c2') (VDict c3') (VDict c4')
                    (VList T') srv, seen') ∧
      wf (VDict P') ∧ wf (VDict c1') ∧ wf (VDict c2') ∧ wf (VDict c3') ∧
      wf (VDict c4') ∧ Forall wf T'.
Proof.
  induction l as [|p r IH]; intros Hl P c1 c2 c3 c4 T srv seen st'
    HP H1 H2 H3 H4 HT; cbn [foldM].
  - intros [= <-]. by exists P, c1, c2, c3, c4, T, seen.
  - rewrite bind_OK. intros (st1 & Hm & Hr).
    unfold merge_input, load_yaml in Hm.
    destruct (files w p) as [spec|] eqn:Hp; [|done].
    cbn [mbind result_bind] in Hm.
    assert (wf spec) as Hspec by (eapply Hl; [by left|done]).
    apply merge_doc_mk_out in Hm
      as (P1 & a1 & a2 & a3 & a4 & _ & HmP & Hm1 & Hm2 & Hm3 & Hm4 & ->).
    apply deep_merge_dict_wf in HmP; [|by apply wf_paths_src|done].
    apply deep_merge_dict_wf in Hm1; [|by apply wf_comp_src|done].
    apply deep_merge_dict_wf in Hm2; [|by apply wf_comp_src|done].
    apply deep_merge_dict_wf in Hm3; [|by apply wf_comp_src|done].
    apply deep_merge_dict_wf in Hm4; [|by apply wf_comp_src|done].
    eapply IH; [| | | | | | |done]; try done.
    + intros p' spec' Hp'. apply Hl. by right.
    + apply Forall_app. split; [done|].
      apply Forall_forall. intros t [_ Ht]%list_elem_of_filter.
      revert t Ht. apply Forall_forall.
      by apply wf_first_occurrences, wf_tag_entries.
Qed.

(** X15: the merged document is a document: when every mapping of every
    input holds each of its keys once, so does every mapping of the
    merged document. *)
Theorem merged_document_wf w paths out :
  (∀ p spec, p ∈ paths → files w p = Some spec → wf spec) →
  merge_specs w paths = OK out → wf (VDict out).
Proof.
  intros Hwf. unfold merge_specs. rewrite bind_OK.
  intros (st & Hrun & [= <-]). rewrite seed_mk_out in Hrun.
  apply (run_wf w paths Hwf) in Hrun
    as (P & c1 & c2 & c3 & c4 & T & seen & -> & ? & ? & ? & ? & ? & ?);
    try done; try apply wf_empty.
  by apply wf_mk_out.
Qed.

Lemma merged_document_wf_witness :
  (∀ p spec, p ∈ ["users.yaml"; "sessions.yaml"] →
     files Sample.plain p = Some spec → wf spec) ∧
  merge_specs Sample.plain ["users.yaml"; "sessions.yaml"] = OK Sample.merged ∧
  wf (VDict Sample.merged).
Proof.
  assert (∀ p spec, p ∈ ["users.yaml"; "sessions.yaml"] →
            files Sample.plain p = Some spec → wf spec) as Hwf.
  { intros p spec Hp. apply elem_of_cons in Hp as [->|Hp].
    - intros [= <-]. by apply wf_b_wf.
    - apply list_elem_of_singleton in Hp as ->. intros [= <-]. by apply wf_b_wf. }
  split; [done|]. split; [reflexivity|].
  exact (merged_document_wf Sample.plain ["users.yaml"; "sessions.yaml"]
           Sample.merged Hwf eq_refl).
Defined.
